(** * Infinite_BZ: the AI content-generation service

    A shallow embedding of [backend/app/services/ai_generator.py]:
    the description post-processor [_clean_description], the construction
    of the image request, and the orchestrator [generate_event_content]
    with its two nested [try]/[except] blocks.

    Python values are modelled as follows.
    - A [str] is a list of Unicode code points ([list N]); slicing,
      [strip], [replace], [in] and the regular expression work on code
      points, and [urllib.parse.quote] on the UTF-8 bytes.
    - The value produced by the JSON output parser is a JSON value
      ([json]); a JSON object is a finite map from keys to values.
    - The collaborators (text chain, random generator, environment,
      HTTP client, uuid generator, file system) are the fields of an
      [oracle]; the effects the function performs are recorded in a
      [state] that is threaded through an exception-and-state monad.
    - Of what the function prints, the two lines that print a caught
      exception are modelled: the text is encoded for the standard
      output, and a message that cannot be encoded makes the handler
      raise.  The other lines print fixed texts, the URL of the
      request, the URL of the stored image and the status and content
      type of a response; they are taken to succeed.  What is printed
      is not recorded. *)

From Stdlib Require Import ZArith NArith Ascii String DecimalString Decimal.
From stdpp Require Import gmap list.
From Equations Require Import Equations.

Local Open Scope N_scope.

(** ** Python strings *)

Abbreviation pystr := (list N).

(** A literal of the source (all of them are ASCII), as code points. *)
Definition py (s : string) : pystr := N_of_ascii <$> list_ascii_of_string s.

Definition chr_nl : N := 10.
Definition chr_hash : N := 35.

Definition is_nl (c : N) : bool := c =? chr_nl.
Definition not_nl (c : N) : bool := negb (is_nl c).
Definition is_hash (c : N) : bool := c =? chr_hash.

(** [Py_UNICODE_ISSPACE]: the predicate behind [str.strip()] and behind
    [\s] in a [str] pattern. *)
Definition isspace (c : N) : bool :=
  ((9 <=? c) && (c <=? 13)) || ((28 <=? c) && (c <=? 32))
  || (c =? 133) || (c =? 160) || (c =? 5760)
  || ((8192 <=? c) && (c <=? 8202))
  || (c =? 8232) || (c =? 8233) || (c =? 8239) || (c =? 8287)
  || (c =? 12288).

Section Scan.
Context {A : Type} (p : A → bool).

Fixpoint take_while (l : list A) : list A :=
  match l with
  | [] => []
  | x :: l' => if p x then x :: take_while l' else []
  end.

Fixpoint drop_while (l : list A) : list A :=
  match l with
  | [] => []
  | x :: l' => if p x then drop_while l' else l
  end.
End Scan.

(** [str.lstrip()], [str.rstrip()] and [str.strip()] without argument. *)
Definition lstrip (s : pystr) : pystr := drop_while isspace s.
Definition rstrip (s : pystr) : pystr := reverse (drop_while isspace (reverse s)).
Definition strip (s : pystr) : pystr := rstrip (lstrip s).

(** ** The regular expression [^#+\s.*$] with [re.MULTILINE]

    [header_match s] is the match of [#+\s.*$] at the head of [s], for a
    position where [^] holds: the matched text and the rest of the
    subject.  [#+] is greedy and cannot give a character back to [\s]
    (a [#] is not whitespace); [\s] accepts any whitespace character,
    the newline included; [.*] runs to the next newline, where [$]
    holds, or to the end of the subject. *)
Definition header_match (s : pystr) : option (pystr * pystr) :=
  match take_while is_hash s, drop_while is_hash s with
  | (_ :: _) as hs, c :: r =>
      if isspace c
      then Some (hs ++ c :: take_while not_nl r, drop_while not_nl r)
      else None
  | _, _ => None
  end.

Definition ends_with_nl (m : pystr) : bool :=
  match last m with Some c => is_nl c | None => false end.

(** [re.sub(r'^#+\s.*$', '', text, flags=re.MULTILINE)]: the subject is
    scanned from left to right; [bol] tells whether [^] holds at the
    current position (start of the subject, or just after a newline).
    A match is replaced by the empty string and the scan resumes after
    it; otherwise the current character is copied. *)
Equations? re_sub_from (bol : bool) (s : pystr) : pystr by wf (length s) lt :=
  re_sub_from bol [] := [];
  re_sub_from bol (c :: s') with Logic.inspect (if bol then header_match (c :: s') else None) => {
    | exist _ (Some (m, r)) Hm := re_sub_from (ends_with_nl m) r;
    | exist _ None _ := c :: re_sub_from (is_nl c) s' }.
Proof.
  destruct bol; [|discriminate]. revert Hm. unfold header_match.
  assert (Hd : ∀ (q : N → bool) l, (length (drop_while q l) ≤ length l)%nat).
  { intros q l; induction l as [|x l IH]; simpl; [lia|].
    destruct (q x); simpl; lia. }
  destruct (take_while is_hash (c :: s')) as [|h hs]; [discriminate|].
  destruct (drop_while is_hash (c :: s')) as [|d r'] eqn:Hr; [discriminate|].
  destruct (isspace d); [|discriminate].
  intros [= <- <-].
  pose proof (Hd is_hash (c :: s')) as H1. rewrite Hr in H1. simpl in H1.
  pose proof (Hd not_nl r') as H2. simpl. lia.
Qed.

Definition re_sub_headers (text : pystr) : pystr := re_sub_from true text.

(** [AIGeneratorService._clean_description] *)
Definition _clean_description (text : pystr) : pystr :=
  strip (re_sub_headers text).

(** [header_at s]: the pattern [#+\s] matches at the head of [s]. *)
Definition header_at (s : pystr) : bool :=
  match take_while is_hash s, drop_while is_hash s with
  | _ :: _, c :: _ => isspace c
  | _, _ => false
  end.

(** [no_header bol s]: no position of [s] where [^] holds carries a
    header; [bol] tells whether [^] holds at the head of [s]. *)
Fixpoint no_header (bol : bool) (s : pystr) : bool :=
  match s with
  | [] => true
  | c :: s' => negb (bol && header_at s) && no_header (is_nl c) s'
  end.


(** A line end: nothing follows, or a newline does. *)
Definition at_line_end (post : pystr) : Prop :=
  post = [] ∨ head post = Some chr_nl.


(** ** String operations used by the orchestrator *)

(** [s.startswith(p)] *)
Fixpoint is_prefix (p s : pystr) : bool :=
  match p, s with
  | [], _ => true
  | _ :: _, [] => false
  | a :: p', b :: s' => (a =? b) && is_prefix p' s'
  end.

(** [sub in s] for two strings. *)
Fixpoint contains (sub s : pystr) : bool :=
  is_prefix sub s || match s with [] => false | _ :: s' => contains sub s' end.

(** [s.replace(old, new)]: every non-overlapping occurrence of [old],
    found from left to right, is replaced.  (For an empty [old] Python
    inserts [new] before every character and at the end.) *)
Equations? replace (old new s : pystr) : pystr by wf (length s) lt :=
  replace [] new s := new ++ concat ((λ c, c :: new) <$> s);
  replace (o :: old') new [] := [];
  replace (o :: old') new (c :: s') with is_prefix (o :: old') (c :: s') => {
    | true := new ++ replace (o :: old') new (drop (length old') s');
    | false := c :: replace (o :: old') new s' }.
Proof. rewrite length_drop. lia. Qed.

(** [str(n)] for an [int], as the f-string formats it. *)
Definition str_of_int (n : Z) : pystr := py (NilZero.string_of_int (Z.to_int n)).

(** [bytes(s, 'utf-8')] with [errors='strict']: a surrogate code point
    cannot be encoded. *)
Definition utf8_encode_char (c : N) : option (list N) :=
  if c <? 0x80 then Some [c]
  else if c <? 0x800 then
    Some [N.lor 0xC0 (N.shiftr c 6); N.lor 0x80 (N.land c 0x3F)]
  else if (0xD800 <=? c) && (c <=? 0xDFFF) then None
  else if c <? 0x10000 then
    Some [N.lor 0xE0 (N.shiftr c 12);
          N.lor 0x80 (N.land (N.shiftr c 6) 0x3F);
          N.lor 0x80 (N.land c 0x3F)]
  else if c <=? 0x10FFFF then
    Some [N.lor 0xF0 (N.shiftr c 18);
          N.lor 0x80 (N.land (N.shiftr c 12) 0x3F);
          N.lor 0x80 (N.land (N.shiftr c 6) 0x3F);
          N.lor 0x80 (N.land c 0x3F)]
  else None.

Fixpoint utf8_encode (s : pystr) : option (list N) :=
  match s with
  | [] => Some []
  | c :: s' =>
      b ← utf8_encode_char c; r ← utf8_encode s'; Some (b ++ r)
  end.

(** [urllib.parse.quote] with its default [safe='/']: letters, digits
    and [_.-~/] are kept, every other byte becomes [%XX]. *)
Definition always_safe (b : N) : bool :=
  ((65 <=? b) && (b <=? 90)) || ((97 <=? b) && (b <=? 122))
  || ((48 <=? b) && (b <=? 57))
  || (b =? 95) || (b =? 46) || (b =? 45) || (b =? 126).

Definition hex_digit (d : N) : N := if d <? 10 then 48 + d else 55 + d.

Definition quote_byte (b : N) : pystr :=
  if always_safe b || (b =? 47) then [b]
  else [37; hex_digit (b / 16); hex_digit (b mod 16)].

Definition quote_bytes (bs : list N) : pystr := concat (quote_byte <$> bs).

(** [os.path.join] (POSIX) for two components. *)
Definition path_join (a b : pystr) : pystr :=
  if is_prefix (py "/") b then b
  else match last a with
       | None => b
       | Some c => if c =? 47 then a ++ b else a ++ py "/" ++ b
       end.

(** ** JSON values

    What [JsonOutputParser] hands back: the result of [json.loads]. *)
#[local] Set Warnings "-register-all".
Inductive json :=
| JNull
| JBool (b : bool)
| JInt (n : Z)
| JFloat (bits : N)
| JStr (s : pystr)
| JList (l : list json)
| JDict (d : gmap pystr json).

(** ** The schema

    The Pydantic models of the source.  [JsonOutputParser] takes
    [EventContent] to word its format instructions; [validate] is the
    validation the models stand for: every field present, with the
    declared type. *)
Record AgendaItem := {
  time : pystr;
  title : pystr;
  speaker : pystr
}.

Record EventContent := {
  description : pystr;
  agenda : list AgendaItem;
  tags : list pystr;
  image_prompt : pystr
}.

Definition as_str (v : json) : option pystr :=
  match v with JStr s => Some s | _ => None end.

Definition field_str (d : gmap pystr json) (k : pystr) : option pystr :=
  d !! k ≫= as_str.

Definition validate_agenda_item (v : json) : option AgendaItem :=
  match v with
  | JDict d =>
      t ← field_str d (py "time");
      n ← field_str d (py "title");
      s ← field_str d (py "speaker");
      Some {| time := t; title := n; speaker := s |}
  | _ => None
  end.

Definition validate (v : json) : option EventContent :=
  match v with
  | JDict d =>
      desc ← field_str d (py "description");
      items ← match d !! py "agenda" with
              | Some (JList l) => mapM validate_agenda_item l
              | _ => None
              end;
      ts ← match d !! py "tags" with
           | Some (JList l) => mapM as_str l
           | _ => None
           end;
      prompt ← field_str d (py "image_prompt");
      Some {| description := desc; agenda := items; tags := ts;
              image_prompt := prompt |}
  | _ => None
  end.

(** ** Exceptions

    The instances of [Exception] that can be raised while the function
    runs.  (Cancellation and interrupts derive from [BaseException]
    only, and are outside the model.) *)
Inductive exn :=
| TypeError
| KeyError (key : pystr)
| UnicodeEncodeError
| OtherError (cls msg : pystr).

Inductive outcome (A : Type) :=
| Return (a : A)
| Raise (e : exn).
Arguments Return {A} a.
Arguments Raise {A} e.

(** ** The collaborators and the effects *)

Record request := {
  req_url : pystr;
  req_user_agent : pystr;
  req_timeout : Z
}.

Record response := {
  status_code : Z;
  content_type : option pystr;  (* the [Content-Type] header, if any *)
  content : list N
}.

(** The world around one call.  [requests_get n r] answers the request
    [r] when [n] requests have been made before it; [random_randint n]
    and [uuid_uuid4 n] are the draws in order. *)
Record oracle := {
  get_format_instructions : pystr;
  chain_ainvoke : pystr → outcome json;
  random_randint : nat → Z;
  os_getenv : pystr → option pystr;
  requests_get : nat → request → outcome response;
  uuid_uuid4 : nat → pystr;
  os_getcwd : pystr;
  write_file : pystr → list N → option exn
}.

(** What the call has done so far. *)
Record state := {
  draws : nat;                       (* calls of [random.randint] *)
  uuids : nat;                       (* calls of [uuid.uuid4] *)
  sent : list request;               (* calls of [requests.get], in order *)
  files : list (pystr * list N)      (* files written, in order *)
}.

Definition initial : state :=
  {| draws := 0; uuids := 0; sent := []; files := [] |}.

Definition M (A : Type) : Type := state → outcome A * state.

Definition ret {A} (a : A) : M A := λ st, (Return a, st).
Definition raise {A} (e : exn) : M A := λ st, (Raise e, st).
Definition bind {A B} (m : M A) (k : A → M B) : M B :=
  λ st, match m st with
        | (Return a, st') => k a st'
        | (Raise e, st') => (Raise e, st')
        end.

(** [try: body except Exception as e: handler e] *)
Definition try_except {A} (body : M A) (handler : exn → M A) : M A :=
  λ st, match body st with
        | (Return a, st') => (Return a, st')
        | (Raise e, st') => handler e st'
        end.

Definition lift {A} (o : outcome A) : M A := λ st, (o, st).

Notation "'let*' x ':=' m 'in' k" := (bind m (λ x, k))
  (at level 10, x binder, m at level 100, k at level 200).

(** ** Python operations on JSON values *)

Definition is_str (k : pystr) (v : json) : bool :=
  match v with JStr s => bool_decide (s = k) | _ => false end.

(** [k in v] for a string [k]: key test on a dict, element test on a
    list, substring test on a string; other values are not iterable. *)
Definition py_in (k : pystr) (v : json) : outcome bool :=
  match v with
  | JDict d => Return (bool_decide (is_Some (d !! k)))
  | JList l => Return (existsb (is_str k) l)
  | JStr s => Return (contains k s)
  | _ => Raise TypeError
  end.

(** [v[k]] for a string [k]. *)
Definition getitem (v : json) (k : pystr) : outcome json :=
  match v with
  | JDict d => match d !! k with Some x => Return x | None => Raise (KeyError k) end
  | _ => Raise TypeError
  end.

(** [v[k] = x] for a string [k]. *)
Definition setitem (v : json) (k : pystr) (x : json) : outcome json :=
  match v with
  | JDict d => Return (JDict (<[k := x]> d))
  | _ => Raise TypeError
  end.

(** [v[:n]]: strings and lists can be sliced. *)
Definition getslice (v : json) (n : nat) : outcome json :=
  match v with
  | JStr s => Return (JStr (take n s))
  | JList l => Return (JList (take n l))
  | _ => Raise TypeError
  end.

(** [v + s] for a string [s]. *)
Definition add_str (v : json) (s : pystr) : outcome pystr :=
  match v with
  | JStr t => Return (t ++ s)
  | _ => Raise TypeError
  end.

(** [urllib.parse.quote(s)] *)
Definition quote (s : pystr) : outcome pystr :=
  match utf8_encode s with
  | Some bs => Return (quote_bytes bs)
  | None => Raise UnicodeEncodeError
  end.

(** [self._clean_description(v)]: [re.sub] accepts a string only. *)
Definition clean_description (v : json) : outcome json :=
  match v with
  | JStr s => Return (JStr (_clean_description s))
  | _ => Raise TypeError
  end.

(** [print(f"...{e}")] for a caught exception [e].  The text is
    encoded for the standard output, taken to be UTF-8 with strict
    error handling (the default of Python 3 on a UTF-8 locale): a
    message that holds a code point UTF-8 cannot encode makes [print]
    raise [UnicodeEncodeError].  [OtherError cls msg] is an exception
    of a collaborator, of any class, whose [str] is [msg]; [TypeError],
    [KeyError] and [UnicodeEncodeError] are the exceptions the
    interpreter raises in the function's own operations, whose
    messages name types and quote keys and characters by their
    escapes, and can be encoded. *)
Definition printable (e : exn) : bool :=
  match e with
  | OtherError _ msg => bool_decide (is_Some (utf8_encode msg))
  | _ => true
  end.

Definition print_exception (e : exn) : M unit :=
  if printable e then ret tt else raise UnicodeEncodeError.

(** ** The service *)

Definition user_agent : pystr :=
  py "Mozilla/5.0 (Windows NT 10.0; Win64; x64) AppleWebKit/537.36 (KHTML, like Gecko) Chrome/91.0.4472.124 Safari/537.36".

(** The f-string of the prompt: every line carries the indentation of
    the source. *)
Definition build_prompt (fmt title category start_time end_time : pystr) : pystr :=
  let ind := py "        " in
  let line (l : pystr) := ind ++ l ++ [chr_nl] in
  [chr_nl]
  ++ line (py "You are an expert event planner. Create detailed content for an event.")
  ++ line []
  ++ line (py "Event Details:")
  ++ line (py "Title: " ++ title)
  ++ line (py "Category: " ++ category)
  ++ line (py "Time: " ++ start_time ++ py " to " ++ end_time)
  ++ line []
  ++ line fmt
  ++ line []
  ++ line (py "Ensure description is 200-300 words, engaging, and uses plain text (no markdown headers).")
  ++ line (py "Ensure the image_prompt is highly detailed, cinematic, and photorealistic.")
  ++ ind.

(** The conditional expression of line 84: the parameter is present
    when the key is truthy; an unset variable and an empty value are
    both falsy. *)
Definition api_key_param (key : option pystr) : pystr :=
  match key with
  | Some (c :: k) => py "&api_key=" ++ c :: k
  | _ => []
  end.

(** The f-string of the request URL. *)
Definition pollinations_url (encoded_prompt : pystr) (seed : Z) (key : option pystr) : pystr :=
  py "https://image.pollinations.ai/prompt/" ++ encoded_prompt
  ++ py ".png?width=1280&height=720&model=flux&nologo=true&seed="
  ++ str_of_int seed ++ api_key_param key.

(** The success condition of lines 99 and 118: the status is 200 and
    the [Content-Type] header, the empty string when absent, contains
    [image]. *)
Definition is_image (r : response) : bool :=
  (status_code r =? 200)%Z && contains (py "image") (default [] (content_type r)).

(** The request that [requests.get(url, headers=headers, timeout=30)]
    sends. *)
Definition request_for (url : pystr) : request :=
  {| req_url := url; req_user_agent := user_agent; req_timeout := 30 |}.

Section Service.
Context (W : oracle).

Definition ainvoke (prompt : pystr) : M json := lift (chain_ainvoke W prompt).

Definition randint : M Z :=
  λ st, (Return (random_randint W (draws st)),
         {| draws := S (draws st); uuids := uuids st;
            sent := sent st; files := files st |}).

Definition uuid4 : M pystr :=
  λ st, (Return (uuid_uuid4 W (uuids st)),
         {| draws := draws st; uuids := S (uuids st);
            sent := sent st; files := files st |}).

(** [requests.get(url, headers=headers, timeout=30)] *)
Definition get (url : pystr) : M response :=
  λ st, let r := request_for url in
        (requests_get W (length (sent st)) r,
         {| draws := draws st; uuids := uuids st;
            sent := sent st ++ [r]; files := files st |}).

(** [os.makedirs(...)], [open(file_path, "wb")] and [f.write(...)] *)
Definition save (path : pystr) (bytes : list N) : M unit :=
  λ st, match write_file W path bytes with
        | Some e => (Raise e, st)
        | None => (Return tt,
                   {| draws := draws st; uuids := uuids st; sent := sent st;
                      files := files st ++ [(path, bytes)] |})
        end.

(** Lines 100-109 and 119-124: store the image, set [imageUrl]. *)
Definition store_image (result : json) (img_response : response) : M json :=
  let* u := uuid4 in
  let filename := py "ai_gen_" ++ u ++ py ".png" in
  let file_path := path_join (path_join (os_getcwd W) (py "uploads")) filename in
  let* _ := save file_path (content img_response) in
  lift (setitem result (py "imageUrl")
          (JStr (py "http://localhost:8000/uploads/" ++ filename))).

(** Lines 91-132: the download, with its fallback and its handler.
    The dictionary is changed by the last statement of each branch
    only, so the handler sees it as it was when the [try] block was
    entered.  The handler prints the exception before it sets
    [imageUrl]. *)
Definition download (result : json) (url : pystr) : M json :=
  try_except
    (let* img_response := get url in
     if is_image img_response then store_image result img_response
     else if contains (py "model=flux") url then
       let retry_url := replace (py "model=flux") (py "model=turbo") url in
       let* img_response := get retry_url in
       if is_image img_response then store_image result img_response
       else lift (setitem result (py "imageUrl") (JStr []))
     else lift (setitem result (py "imageUrl") (JStr [])))
    (λ dl_err,
       let* _ := print_exception dl_err in
       lift (setitem result (py "imageUrl") (JStr []))).

(** Lines 71-134: the image step. *)
Definition image_step (result : json) : M json :=
  let* has_prompt := lift (py_in (py "image_prompt") result) in
  if has_prompt then
    let* seed := randint in
    let* p := lift (getitem result (py "image_prompt")) in
    let* base_prompt := lift (getslice p 200) in
    let* enhanced_prompt := lift (add_str base_prompt (py ", cinematic lighting")) in
    let* encoded_prompt := lift (quote enhanced_prompt) in
    let pollinations_api_key := os_getenv W (py "POLLINATIONS_API_KEY") in
    download result (pollinations_url encoded_prompt seed pollinations_api_key)
  else lift (setitem result (py "imageUrl") (JStr [])).

(** Lines 66-68: the post-processing of [description]. *)
Definition post_process (result : json) : M json :=
  let* has_description := lift (py_in (py "description") result) in
  if has_description then
    let* d := lift (getitem result (py "description")) in
    let* c := lift (clean_description d) in
    lift (setitem result (py "description") c)
  else ret result.

(** [AIGeneratorService.generate_event_content]: the handler of lines
    138-140 prints the exception, then raises it again. *)
Definition generate_event_content
    (title category start_time end_time : pystr) : M json :=
  let prompt :=
    build_prompt (get_format_instructions W) title category start_time end_time in
  try_except
    (let* result := ainvoke prompt in
     let* result := post_process result in
     image_step result)
    (λ e, let* _ := print_exception e in raise e).
End Service.

(** ** The vocabulary of the statements *)

(** The environment variable of the image-backend key. *)
Definition key_name : pystr := py "POLLINATIONS_API_KEY".

(** The image-backend key is configured: the variable is set to a
    non-empty value. *)
Definition key_configured (key : option pystr) : bool :=
  match key with Some (_ :: _) => true | _ => false end.

(** The request URL of the specification:
    [{base}/prompt/{encoded-prompt}.png?width=1280&height=720&model={model}&nologo=true&seed={seed}],
    followed by [&api_key={key}] exactly when the key is configured. *)
Definition spec_base : pystr := py "https://image.pollinations.ai".

Definition spec_request_url (model encoded_prompt : pystr) (seed : Z)
    (key : option pystr) : pystr :=
  spec_base ++ py "/prompt/" ++ encoded_prompt
  ++ py ".png?width=1280&height=720&model=" ++ model
  ++ py "&nologo=true&seed=" ++ str_of_int seed
  ++ (if key_configured key then py "&api_key=" ++ default [] key else []).

(** The prompt of the specification: the first 200 characters, then the
    fixed suffix. *)
Definition spec_styled_prompt (image_prompt : pystr) : pystr :=
  take 200 image_prompt ++ py ", cinematic lighting".

(** A Unicode scalar value: a code point that is not a surrogate. *)
Definition is_scalar (c : N) : Prop :=
  c < 0xD800 ∨ (0xDFFF < c ∧ c ≤ 0x10FFFF).

(** The value conforms to the schema. *)
Definition conforms (v : json) : bool :=
  if validate v is Some _ then true else false.

(** What the function itself asks of the parsed value: a dictionary
    whose [description], if present, is a string, and whose
    [image_prompt], if present, is a string that can be encoded.
    Nothing else is inspected. *)
Definition accepted (v : json) : bool :=
  match v with
  | JDict d =>
      match d !! py "description" with
      | None | Some (JStr _) => true
      | _ => false
      end
      && match d !! py "image_prompt" with
         | None => true
         | Some (JStr p) => bool_decide (is_Some (utf8_encode (spec_styled_prompt p)))
         | _ => false
         end
  | _ => false
  end.

(** The dictionary after the post-processing of [description]. *)
Definition cleaned (d : gmap pystr json) : gmap pystr json :=
  match d !! py "description" with
  | Some (JStr s) => <[py "description" := JStr (_clean_description s)]> d
  | _ => d
  end.


(** The results and the states the download can end in. *)
Definition with_image_url (d : gmap pystr json) (u : pystr) : json :=
  JDict (<[py "imageUrl" := JStr u]> d).

Definition upload_url (u : pystr) : pystr :=
  py "http://localhost:8000/uploads/" ++ (py "ai_gen_" ++ u ++ py ".png").

Definition upload_path (cwd u : pystr) : pystr :=
  path_join (path_join cwd (py "uploads")) (py "ai_gen_" ++ u ++ py ".png").

Definition after_draw (st : state) : state :=
  {| draws := S (draws st); uuids := uuids st; sent := sent st; files := files st |}.

Definition after_get (r : request) (st : state) : state :=
  {| draws := draws st; uuids := uuids st; sent := sent st ++ [r]; files := files st |}.

Definition after_uuid (st : state) : state :=
  {| draws := draws st; uuids := S (uuids st); sent := sent st; files := files st |}.

Definition after_save (path : pystr) (bytes : list N) (st : state) : state :=
  {| draws := draws st; uuids := uuids st; sent := sent st;
     files := files st ++ [(path, bytes)] |}.


(** What the caller of a handler that prints the exception [e] and
    raises it again sees: [e], or the error of the print. *)
Definition logged (e : exn) : exn :=
  if printable e then e else UnicodeEncodeError.

(** What the handler of the download leaves for the exception [e]: the
    empty URL, or the error of the print. *)
Definition absorbed (d : gmap pystr json) (e : exn) (st : state)
    : outcome json * state :=
  if printable e then (Return (with_image_url d []), st)
  else (Raise UnicodeEncodeError, st).

(** What storing the image leaves when it runs under the handler of
    the download: the public URL and the file, or what the handler
    leaves when the file system refuses. *)
Definition stored (W : oracle) (d : gmap pystr json) (resp : response)
    (st : state) : outcome json * state :=
  let u := uuid_uuid4 W (uuids st) in
  let path := upload_path (os_getcwd W) u in
  match write_file W path (content resp) with
  | None => (Return (with_image_url d (upload_url u)),
             after_save path (content resp) (after_uuid st))
  | Some e => absorbed d e (after_uuid st)
  end.

(** What the download ends in: the dictionary with [imageUrl] set, or
    the error of the print of its handler. *)
Definition settled (d : gmap pystr json) (out : outcome json * state) : Prop :=
  (∃ u, out.1 = Return (with_image_url d u)) ∨ out.1 = Raise UnicodeEncodeError.

(** Every error the HTTP client and the file system raise can be
    printed. *)
Definition quiet (W : oracle) : Prop :=
  (∀ n r e, requests_get W n r = Raise e → printable e = true)
  ∧ (∀ path bytes e, write_file W path bytes = Some e → printable e = true).

(** The call reaches the download: the text chain yields the
    dictionary [d], whose [description], if present, is a string and
    whose [image_prompt] is the string [p]; the styled prompt encodes
    to the bytes [bs]. *)
Definition description_ok (d : gmap pystr json) : bool :=
  match d !! py "description" with
  | None | Some (JStr _) => true
  | _ => false
  end.

Definition reaches_download (W : oracle)
    (title category start_time end_time : pystr)
    (d : gmap pystr json) (p : pystr) (bs : list N) : Prop :=
  chain_ainvoke W
    (build_prompt (get_format_instructions W) title category start_time end_time)
  = Return (JDict d)
  ∧ description_ok d = true
  ∧ d !! py "image_prompt" = Some (JStr p)
  ∧ utf8_encode (spec_styled_prompt p) = Some bs.

(** Both attempts fail: the primary request, sent when [n] requests
    have been made, raises, or it is answered by something that is not
    an image and the retry raises or is answered likewise. *)
Definition attempts_fail (W : oracle) (n : nat) (url : pystr) : Prop :=
  match requests_get W n (request_for url) with
  | Raise _ => True
  | Return r1 =>
      is_image r1 = false
      ∧ match requests_get W (S n)
                (request_for (replace (py "model=flux") (py "model=turbo") url)) with
        | Raise _ => True
        | Return r2 => is_image r2 = false
        end
  end.

(** ** Sample runs *)

Definition sample_agenda : json :=
  JList [JDict {[ py "time" := JStr (py "10:00 AM");
                  py "title" := JStr (py "Opening");
                  py "speaker" := JStr (py "Ada") ]}].

(** A value that conforms to the schema. *)
Definition sample_content : gmap pystr json :=
  {[ py "description" := JStr (py "# Launch day
Meet the team.");
     py "agenda" := sample_agenda;
     py "tags" := JList [JStr (py "tech")];
     py "image_prompt" := JStr (py "a stage") ]}.

(** A value without [agenda], [tags] and [image_prompt]. *)
Definition sample_partial : gmap pystr json :=
  {[ py "description" := JStr (py "Meet the team.") ]}.

Definition png_200 : response :=
  {| status_code := 200; content_type := Some (py "image/png"); content := [137; 80; 78; 71] |}.

Definition html_500 : response :=
  {| status_code := 500; content_type := Some (py "text/html"); content := [] |}.

Definition timeout_error : exn :=
  OtherError (py "requests.exceptions.ReadTimeout") (py "read timed out").

Definition gateway_error : exn :=
  OtherError (py "google.api_core.exceptions.ServiceUnavailable") (py "503").

(** Two exceptions whose messages hold a lone surrogate (U+DC80), as a
    text decoded from a JSON escape or from undecodable bytes may: the
    message cannot be encoded as UTF-8. *)
Definition garbled_output_error : exn :=
  OtherError (py "langchain_core.exceptions.OutputParserException")
    (py "Invalid json output: " ++ [56448]).

Definition garbled_transport_error : exn :=
  OtherError (py "requests.exceptions.ConnectionError")
    (py "Connection aborted: " ++ [56448]).

(** A world whose text chain answers [text], whose environment holds
    [key] and whose image backend answers the [n]-th request with
    [http n]; the seeds drawn are [7, 8, ...]. *)
Definition sample_world (text : outcome json) (key : option pystr)
    (http : nat → outcome response) : oracle :=
  {| get_format_instructions := py "Return a JSON object.";
     chain_ainvoke := λ _, text;
     random_randint := λ n, (7 + Z.of_nat n)%Z;
     os_getenv := λ name, if bool_decide (name = key_name) then key else None;
     requests_get := λ n _, http n;
     uuid_uuid4 := λ n, py "3f2c" ++ str_of_int (Z.of_nat n);
     os_getcwd := py "/srv/app";
     write_file := λ _ _, None |}.

Definition sample_call (W : oracle) : outcome json * state :=
  generate_event_content W (py "Launch") (py "Tech") (py "10:00") (py "12:00") initial.

(** The result of a call, when it returned one. *)
Definition result_of (out : outcome json * state) : json :=
  match out.1 with Return r => r | Raise _ => JNull end.

Definition sample_flux_url : pystr :=
  py "https://image.pollinations.ai/prompt/a%20stage%2C%20cinematic%20lighting.png?width=1280&height=720&model=flux&nologo=true&seed=7".

Definition sample_turbo_url : pystr :=
  py "https://image.pollinations.ai/prompt/a%20stage%2C%20cinematic%20lighting.png?width=1280&height=720&model=turbo&nologo=true&seed=7".

(** ** The vocabulary of the further properties *)

(** The characters of a percent-encoded path: the unreserved ones, the
    slash and the percent sign. *)
Definition is_path_char (c : N) : Prop :=
  always_safe c = true ∨ c = 47 ∨ c = 37.

(** The call left the network and the disk alone. *)
Definition untouched (st st' : state) : Prop :=
  sent st' = sent st ∧ files st' = files st ∧ uuids st' = uuids st.

(** The URL under [imageUrl] in a result, when it holds one. *)
Definition image_url_of (r : json) : option pystr :=
  match r with
  | JDict d => d !! py "imageUrl" ≫= as_str
  | _ => None
  end.

(** The request goes to the image backend, with the browser identity
    and the timeout of the source. *)
Definition to_image_backend (r : request) : Prop :=
  is_prefix (py "https://image.pollinations.ai/prompt/") (req_url r) = true
  ∧ req_user_agent r = user_agent
  ∧ req_timeout r = 30%Z.



(** A world whose identifiers are told apart by their last character. *)
Definition counting_world (text : outcome json)
    (http : nat → outcome response) : oracle :=
  {| get_format_instructions := py "Return a JSON object.";
     chain_ainvoke := λ _, text;
     random_randint := λ n, (7 + Z.of_nat n)%Z;
     os_getenv := λ _, None;
     requests_get := λ n _, http n;
     uuid_uuid4 := λ n, py "3f2c-" ++ [N.of_nat n + 97];
     os_getcwd := py "/srv/app";
     write_file := λ _ _, None |}.

(** * The ticket service

    A shallow embedding of [backend/app/services/ticket_service.py]:
    [generate_qr] and [generate_ticket_pdf].  The QR encoder, the PDF
    canvas and the file system are collaborators: what the functions
    hand to them is recorded, and each of them may raise.  A file is
    saved into a directory that exists; a save that fails after the
    file was opened may leave it emptied or partial, and the path is
    recorded.  Coordinates are binary64 floats, computed as the source
    computes them. *)

From Stdlib Require PrimFloat DecimalPos DecimalZ.

Definition TICKET_DIR : pystr := py "tickets".

(** ** Dates *)

(** The fields of a [datetime] that the formats of the service read. *)
Record datetime := {
  year : Z;
  month : Z;
  day : Z;
  hour : Z;
  minute : Z
}.

(** The values the constructor of [datetime] accepts (it also bounds
    the day by the length of the month). *)
Definition valid_datetime (d : datetime) : Prop :=
  (1 ≤ year d ≤ 9999 ∧ 1 ≤ month d ≤ 12 ∧ 1 ≤ day d ≤ 31
   ∧ 0 ≤ hour d ≤ 23 ∧ 0 ≤ minute d ≤ 59)%Z.

Definition month_names : list pystr :=
  [py "January"; py "February"; py "March"; py "April"; py "May"; py "June";
   py "July"; py "August"; py "September"; py "October"; py "November";
   py "December"].

(** A number in two digits at least, as C's [%02d] prints it. *)
Definition zero_pad2 (n : Z) : pystr :=
  let s := str_of_int n in
  if (length s <? 2)%nat then 48 :: s else s.

(** [%B], [%I] and [%p] in the C locale. *)
Definition month_name (m : Z) : pystr := nth (Z.to_nat (m - 1)) month_names [].

Definition twelve_hour (h : Z) : Z :=
  let h' := (h mod 12)%Z in if (h' =? 0)%Z then 12%Z else h'.

Definition meridiem (h : Z) : pystr := if (h <? 12)%Z then py "AM" else py "PM".

(** One directive of [strftime]: [%B], [%d], [%Y] (not padded by the C
    library), [%I], [%M], [%p], [%H], [%m] and [%%].  The formats of
    the service use no other. *)
Definition directive (d : datetime) (k : N) : pystr :=
  if k =? 66 then month_name (month d)
  else if k =? 100 then zero_pad2 (day d)
  else if k =? 89 then str_of_int (year d)
  else if k =? 73 then zero_pad2 (twelve_hour (hour d))
  else if k =? 77 then zero_pad2 (minute d)
  else if k =? 112 then meridiem (hour d)
  else if k =? 72 then zero_pad2 (hour d)
  else if k =? 109 then zero_pad2 (month d)
  else if k =? 37 then [37]
  else [37; k].

(** [d.strftime(fmt)] *)
Fixpoint strftime (d : datetime) (fmt : pystr) : pystr :=
  match fmt with
  | [] => []
  | c :: fmt' =>
      if c =? 37 then
        match fmt' with
        | [] => [37]
        | k :: rest => directive d k ++ strftime d rest
        end
      else c :: strftime d fmt'
  end.

(** ** Paths *)

(** [s.split('/')] *)
Fixpoint str_split (s : pystr) : list pystr :=
  match s with
  | [] => [[]]
  | c :: s' =>
      if c =? 47 then [] :: str_split s'
      else match str_split s' with
           | comp :: comps => (c :: comp) :: comps
           | [] => [[c]]
           end
  end.

(** ['/'.join(comps)] *)
Fixpoint str_join (comps : list pystr) : pystr :=
  match comps with
  | [] => []
  | [comp] => comp
  | comp :: comps' => comp ++ 47 :: str_join comps'
  end.

(** POSIX allows one or two initial slashes, and treats three or more
    as one. *)
Definition initial_slashes (path : pystr) : nat :=
  if is_prefix (py "/") path then
    if is_prefix (py "//") path && negb (is_prefix (py "///") path)
    then 2%nat else 1%nat
  else 0%nat.

(** The body of the loop of [posixpath.normpath]. *)
Definition normpath_step (slashes : nat) (new_comps : list pystr) (comp : pystr)
    : list pystr :=
  if bool_decide (comp = [] ∨ comp = py ".") then new_comps
  else if bool_decide (comp ≠ py "..")
          || (bool_decide (slashes = 0%nat) && bool_decide (new_comps = []))
          || bool_decide (last new_comps = Some (py ".."))
       then new_comps ++ [comp]
  else removelast new_comps.

(** [posixpath.normpath(path)] *)
Definition normpath (path : pystr) : pystr :=
  if bool_decide (path = []) then py "."
  else
    let slashes := initial_slashes path in
    let comps := foldl (normpath_step slashes) [] (str_split path) in
    let path := replicate slashes 47 ++ str_join comps in
    if bool_decide (path = []) then py "." else path.

(** [os.path.abspath(path)], in the working directory [cwd]. *)
Definition abspath (cwd path : pystr) : pystr :=
  normpath (if is_prefix (py "/") path then path else path_join cwd path).

(** [os.path.dirname] (POSIX): what comes before the last slash, without
    its trailing slashes unless it holds nothing else. *)
Definition is_slash (c : N) : bool := c =? 47.

Definition dirname (p : pystr) : pystr :=
  let head := reverse (drop_while (λ c, negb (is_slash c)) (reverse p)) in
  if forallb is_slash head then head
  else reverse (drop_while is_slash (reverse head)).

(** The error of opening a file in a directory that does not exist; the
    message is the one of Python for a path without quotes, backslashes
    and control characters. *)
Definition file_not_found (path : pystr) : exn :=
  OtherError (py "FileNotFoundError")
    (py "[Errno 2] No such file or directory: '" ++ path ++ py "'").

(** ** The page *)

Inductive color :=
| HexColor (val : pystr)
| white
| black
| gray.

Section Page.
Import PrimFloat.
#[local] Set Warnings "-inexact-float".
Local Open Scope float_scope.

(** The calls made on the canvas. *)
Inductive canvas_op :=
| setFillColor (aColor : color)
| rect (x y width height : float) (fill stroke : Z)
| setFont (psfontname : pystr) (size : Z)
| drawString (x y : float) (text : pystr)
| drawImage (image : pystr) (x y width height : float)
| drawCentredString (x y : float) (text : pystr).

(** [reportlab.lib.units.inch] and [reportlab.lib.pagesizes.letter] *)
Definition inch : float := 72.0.
Definition letter : float * float := (8.5 * inch, 11 * inch).

(** A canvas: the file it will be saved to, its page size and the
    calls made on it so far. *)
Record canvas := {
  filename : pystr;
  pagesize : float * float;
  page : list canvas_op
}.

(** What ends up in a file. *)
Inductive artifact :=
| QrImage (version : Z) (fit : bool) (box_size border : Z)
    (fill_color back_color : pystr) (data : pystr)
| PdfFile (pagesize : float * float) (page : list canvas_op).

(** The collaborators: each call may raise. *)
Record ticket_env := {
  getcwd : pystr;
  os_makedirs : pystr → option exn;
  qr_make : pystr → option exn;
  img_save : pystr → option exn;
  canvas_call : canvas_op → option exn;
  canvas_save : pystr → option exn
}.

(** The file system as the service sees it: the paths that exist, as
    the service spells them, the directories it created and the files
    it wrote, in order, and the files whose writing was begun and
    failed: such a file may be missing, emptied or partial. *)
Record ticket_state := {
  paths : gset pystr;
  made : list pystr;
  written : list (pystr * artifact);
  unfinished : list pystr
}.

Definition TM (A : Type) : Type := ticket_state → outcome A * ticket_state.

Definition unit_T {A} (a : A) : TM A := λ st, (Return a, st).

Definition bind_T {A B} (m : TM A) (k : A → TM B) : TM B :=
  λ st, match m st with
        | (Return a, st') => k a st'
        | (Raise e, st') => (Raise e, st')
        end.

Notation "'let+' x ':=' m 'in' k" := (bind_T m (λ x, k))
  (at level 10, x binder, m at level 100, k at level 200).

(** A call that raises [e] when the collaborator says so. *)
Definition attempt (failure : option exn) : TM unit :=
  λ st, match failure with
        | Some e => (Raise e, st)
        | None => (Return tt, st)
        end.

Context (E : ticket_env).

(** [os.path.exists(path)] *)
Definition os_path_exists (path : pystr) : TM bool :=
  λ st, (Return (bool_decide (path ∈ paths st)), st).

(** [os.makedirs(path)] *)
Definition makedirs (path : pystr) : TM unit :=
  let+ _ := attempt (os_makedirs E path) in
  λ st, (Return tt,
         {| paths := {[path]} ∪ paths st; made := made st ++ [path];
            written := written st; unfinished := unfinished st |}).

(** Writing a file. *)
Definition write (path : pystr) (a : artifact) : TM unit :=
  λ st, (Return tt,
         {| paths := {[path]} ∪ paths st; made := made st;
            written := written st ++ [(path, a)];
            unfinished := unfinished st |}).

(** A write that fails with [e] after the file may have been opened. *)
Definition fail_write (e : exn) (path : pystr) : TM unit :=
  λ st, (Raise e,
         {| paths := paths st; made := made st; written := written st;
            unfinished := unfinished st ++ [path] |}).

(** [img.save(path)] for the image [a]: the image library opens the
    file for writing, which needs the directory of the path, and
    encodes the image into it.  What else may keep it from writing (a
    file in the place of the directory, a missing permission, a full
    disk) is the answer of the collaborator. *)
Definition save_image (path : pystr) (a : artifact) : TM unit :=
  let+ there := os_path_exists (dirname path) in
  if there then
    match img_save E path with
    | Some e => fail_write e path
    | None => write path a
    end
  else λ st, (Raise (file_not_found path), st).

(** A call on the canvas [c]. *)
Definition call (c : canvas) (op : canvas_op) : TM canvas :=
  let+ _ := attempt (canvas_call E op) in
  unit_T {| filename := filename c; pagesize := pagesize c;
            page := page c ++ [op] |}.

(** [c.save()]: the canvas opens its file, an absolute path whose
    directory the collaborator answers for, and formats the page into
    it. *)
Definition save_canvas (c : canvas) : TM unit :=
  match canvas_save E (filename c) with
  | Some e => fail_write e (filename c)
  | None => write (filename c) (PdfFile (pagesize c) (page c))
  end.

(** [generate_qr(data, filename)] *)
Definition generate_qr (data filename : pystr) : TM pystr :=
  let+ _ := attempt (qr_make E data) in
  let path := TICKET_DIR ++ py "/" ++ filename in
  let+ _ := save_image path (QrImage 1 true 10 5 (py "black") (py "white") data) in
  unit_T path.

(** The text encoded in the QR code. *)
Definition qr_text (registration_id event_title user_email : pystr)
    (event_date : datetime) : pystr :=
  py "Ticket ID: " ++ registration_id ++ [chr_nl]
  ++ py "Event: " ++ event_title ++ [chr_nl]
  ++ py "User: " ++ user_email ++ [chr_nl]
  ++ py "Valid: " ++ strftime event_date (py "%Y-%m-%d %H:%M %p").

(** [generate_ticket_pdf(registration_id, event_title, user_name,
    user_email, event_date, event_location)] *)
Definition generate_ticket_pdf
    (registration_id event_title user_name user_email : pystr)
    (event_date : datetime) (event_location : pystr) : TM pystr :=
  let+ there := os_path_exists TICKET_DIR in
  let+ _ := if there then unit_T tt else makedirs TICKET_DIR in
  let filename := py "ticket_" ++ registration_id ++ py ".pdf" in
  let filepath := path_join TICKET_DIR filename in
  let absolute_path := abspath (getcwd E) filepath in
  let c := {| filename := absolute_path; pagesize := letter; page := [] |} in
  let '(width, height) := letter in
  let+ c := call c (setFillColor (HexColor (py "#0F172A"))) in
  let+ c := call c (rect 0 (height - 2 * inch) width (2 * inch) 1 0) in
  let+ c := call c (setFillColor white) in
  let+ c := call c (setFont (py "Helvetica-Bold") 24) in
  let+ c := call c (drawString (0.5 * inch) (height - 1 * inch)
                      (take 40 event_title)) in
  let+ c := call c (setFont (py "Helvetica") 12) in
  let+ c := call c (setFillColor (HexColor (py "#38BDF8"))) in
  let+ c := call c (drawString (0.5 * inch) (height - 1.4 * inch)
                      (py "Powered by Infinite BZ")) in
  let+ c := call c (setFillColor black) in
  let+ c := call c (setFont (py "Helvetica-Bold") 16) in
  let+ c := call c (drawString (0.5 * inch) (height - 3 * inch)
                      (py "ADMIT ONE")) in
  let+ c := call c (setFont (py "Helvetica") 12) in
  let+ c := call c (drawString (0.5 * inch) (height - 3.5 * inch)
                      (py "Attendee: " ++ user_name)) in
  let+ c := call c (drawString (0.5 * inch) (height - 3.8 * inch)
                      (py "Date: "
                       ++ strftime event_date (py "%B %d, %Y @ %I:%M %p"))) in
  let+ c := call c (drawString (0.5 * inch) (height - 4.1 * inch)
                      (py "Location: " ++ event_location)) in
  let+ c := call c (setFillColor gray) in
  let+ c := call c (setFont (py "Helvetica") 10) in
  let+ c := call c (drawString (0.5 * inch) (height - 4.6 * inch)
                      (py "Ticket ID: " ++ registration_id)) in
  let qr_data := qr_text registration_id event_title user_email event_date in
  let qr_filename := py "qr_" ++ registration_id ++ py ".png" in
  let+ qr_path := generate_qr qr_data qr_filename in
  let+ c := call c (drawImage qr_path (width - 2.5 * inch) (height - 4.5 * inch)
                      (2 * inch) (2 * inch)) in
  let+ c := call c (setFillColor (HexColor (py "#0F172A"))) in
  let+ c := call c (setFont (py "Helvetica") 10) in
  let+ c := call c (drawCentredString (width / 2) (0.5 * inch)
                      (py "Please show this ticket at the entrance. valid for one entry.")) in
  let+ _ := save_canvas c in
  unit_T absolute_path.
End Page.

(** The texts the statements speak of. *)
Definition date_line_format : pystr := py "%B %d, %Y @ %I:%M %p".
Definition valid_line_format : pystr := py "%Y-%m-%d %H:%M %p".

Definition qr_path_of (registration_id : pystr) : pystr :=
  py "tickets/qr_" ++ registration_id ++ py ".png".

Definition ticket_path_of (cwd registration_id : pystr) : pystr :=
  path_join (path_join cwd (py "tickets"))
    (py "ticket_" ++ registration_id ++ py ".pdf").

(** A path component that [normpath] keeps: not empty, no slash. *)
Definition plain (comp : pystr) : Prop := comp ≠ [] ∧ Forall (λ c, c ≠ 47) comp.

(** A decimal digit. *)
Definition is_digit (c : N) : Prop := 48 ≤ c ∧ c ≤ 57.

(** To the minute, two dates are the same. *)
Definition same_minute (d1 d2 : datetime) : Prop :=
  year d1 = year d2 ∧ month d1 = month d2 ∧ day d1 = day d2
  ∧ hour d1 = hour d2 ∧ minute d1 = minute d2.

(** What a page shows: the strings drawn and the images placed, in
    order. *)
Definition texts (page : list canvas_op) : list pystr :=
  omap (λ op, match op with
              | drawString _ _ text | drawCentredString _ _ text => Some text
              | _ => None
              end) page.

Definition images (page : list canvas_op) : list pystr :=
  omap (λ op, match op with drawImage image _ _ _ _ => Some image | _ => None end)
    page.

(** The QR image of a ticket. *)
Definition qr_image (registration_id event_title user_email : pystr)
    (event_date : datetime) : artifact :=
  QrImage 1 true 10 5 (py "black") (py "white")
    (qr_text registration_id event_title user_email event_date).

Definition is_pdf (a : artifact) : bool :=
  match a with PdfFile _ _ => true | QrImage _ _ _ _ _ _ _ => false end.

(** ** Sample tickets *)

Definition sample_date : datetime :=
  {| year := 2025; month := 3; day := 4; hour := 14; minute := 5 |}.

(** Collaborators that never fail, in [/srv/app]. *)
Definition sample_env : ticket_env :=
  {| getcwd := py "/srv/app";
     os_makedirs := λ _, None;
     qr_make := λ _, None;
     img_save := λ _, None;
     canvas_call := λ _, None;
     canvas_save := λ _, None |}.

(** A canvas that cannot read the QR image back. *)
Definition unreadable_image_env : ticket_env :=
  {| getcwd := py "/srv/app";
     os_makedirs := λ _, None;
     qr_make := λ _, None;
     img_save := λ _, None;
     canvas_call := λ op, match op with
                          | drawImage _ _ _ _ _ =>
                              Some (OtherError (py "OSError") (py "cannot open resource"))
                          | _ => None
                          end;
     canvas_save := λ _, None |}.

Definition empty_disk : ticket_state :=
  {| paths := ∅; made := []; written := []; unfinished := [] |}.



Definition sample_ticket (E : ticket_env) (st : ticket_state)
    : outcome pystr * ticket_state :=
  generate_ticket_pdf E (py "42") (py "Launch day") (py "Ada Lovelace")
    (py "ada@example.org") sample_date (py "Main hall") st.

(** * Properties *)

(** ** Scanning lists *)

Section ScanFacts.
Context {A : Type} (p : A → bool).

Lemma take_drop_while (l : list A) : take_while p l ++ drop_while p l = l.
Proof.
  induction l as [|x l IH]; simpl; [done|].
  destruct (p x); simpl; [by rewrite IH | done].
Qed.

Lemma take_while_all (l : list A) : Forall (λ x, p x = true) (take_while p l).
Proof.
  induction l as [|x l IH]; simpl; [constructor|].
  destruct (p x) eqn:E; constructor; done.
Qed.

Lemma drop_while_head (l : list A) x l' :
  drop_while p l = x :: l' → p x = false.
Proof.
  induction l as [|y l IH]; simpl; [done|].
  destruct (p y) eqn:E; [done|]. intros [= -> _]. done.
Qed.

Lemma take_while_app (l r : list A) :
  Forall (λ x, p x = true) l → take_while p (l ++ r) = l ++ take_while p r.
Proof.
  induction 1 as [|x l Hx _ IH]; simpl; [done|]. by rewrite Hx, IH.
Qed.

Lemma drop_while_app (l r : list A) :
  Forall (λ x, p x = true) l → drop_while p (l ++ r) = drop_while p r.
Proof.
  induction 1 as [|x l Hx _ IH]; simpl; [done|]. by rewrite Hx.
Qed.

Lemma take_while_id (l : list A) :
  Forall (λ x, p x = true) l → take_while p l = l.
Proof. induction 1 as [|x l Hx _ IH]; simpl; [done|]. by rewrite Hx, IH. Qed.

Lemma drop_while_nil (l : list A) :
  Forall (λ x, p x = true) l → drop_while p l = [].
Proof. induction 1 as [|x l Hx _ IH]; simpl; [done|]. by rewrite Hx. Qed.

Lemma drop_while_stop x (r : list A) : p x = false → drop_while p (x :: r) = x :: r.
Proof. intros H. simpl. by rewrite H. Qed.

Lemma drop_while_length (l : list A) : (length (drop_while p l) ≤ length l)%nat.
Proof.
  induction l as [|x l IH]; simpl; [lia|]. destruct (p x); simpl; lia.
Qed.

Lemma drop_while_suffix (l : list A) : ∃ w, l = w ++ drop_while p l.
Proof. exists (take_while p l). by rewrite take_drop_while. Qed.

Lemma drop_while_snoc (l : list A) x :
  p x = false → drop_while p (l ++ [x]) = drop_while p l ++ [x].
Proof.
  intros Hx. induction l as [|y l IH]; simpl; [by rewrite Hx|].
  by destruct (p y).
Qed.

Lemma drop_while_id (l : list A) :
  (∀ x, head l = Some x → p x = false) → drop_while p l = l.
Proof.
  destruct l as [|x l]; simpl; [done|]. intros H. by rewrite (H x eq_refl).
Qed.
End ScanFacts.

(** ** Characters *)

Lemma hash_not_space c : is_hash c = true → isspace c = false.
Proof. unfold is_hash, chr_hash. intros ->%N.eqb_eq. reflexivity. Qed.

Lemma hash_not_nl c : is_hash c = true → is_nl c = false.
Proof. unfold is_hash, chr_hash. intros ->%N.eqb_eq. reflexivity. Qed.

Lemma is_nl_true c : is_nl c = true ↔ c = chr_nl.
Proof. unfold is_nl. apply N.eqb_eq. Qed.

Lemma not_nl_false c : not_nl c = false ↔ c = chr_nl.
Proof. unfold not_nl. rewrite negb_false_iff. apply is_nl_true. Qed.

(** ** The header pattern *)

Lemma header_match_length s m r :
  header_match s = Some (m, r) → (length r < length s)%nat.
Proof.
  unfold header_match.
  pose proof (@drop_while_length N) as Hd.
  destruct (take_while is_hash s) as [|h hs] eqn:Ht; [discriminate|].
  destruct (drop_while is_hash s) as [|c r'] eqn:Hr; [discriminate|].
  destruct (isspace c); [|discriminate].
  intros [= <- <-].
  pose proof (Hd is_hash s) as H1. rewrite Hr in H1. simpl in H1.
  pose proof (Hd not_nl r') as H2. lia.
Qed.


Lemma header_match_None s : header_match s = None ↔ header_at s = false.
Proof.
  unfold header_match, header_at.
  destruct (take_while is_hash s); [done|].
  destruct (drop_while is_hash s) as [|c r]; [done|].
  destruct (isspace c); done.
Qed.

Lemma header_match_Some s m r :
  header_match s = Some (m, r) →
  header_at s = true ∧ s = m ++ r ∧ m ≠ [] ∧ at_line_end r.
Proof.
  unfold header_match, header_at.
  pose proof (take_drop_while is_hash s) as Hs.
  destruct (take_while is_hash s) as [|h hs]; [done|].
  destruct (drop_while is_hash s) as [|c l]; [done|].
  destruct (isspace c); [|done].
  intros [= <- <-]. split; [done|]. split; [|split].
  - rewrite <- Hs. simpl. rewrite <- app_assoc. simpl.
    by rewrite take_drop_while.
  - done.
  - unfold at_line_end.
    destruct (drop_while not_nl l) as [|x l'] eqn:E; [by left|right].
    apply drop_while_head in E. apply not_nl_false in E. by subst.
Qed.

Lemma header_match_is_Some s :
  header_at s = true → ∃ m r, header_match s = Some (m, r).
Proof.
  intros H. destruct (header_match s) as [[m r]|] eqn:E; [eauto|].
  apply header_match_None in E. congruence.
Qed.

(** [header_at] only reads the run of [#] and the character after it. *)
Lemma header_at_app s t : header_at s = true → header_at (s ++ t) = true.
Proof.
  unfold header_at.
  pose proof (take_drop_while is_hash s) as Hs.
  pose proof (take_while_all is_hash s) as Ha.
  destruct (take_while is_hash s) as [|h hs] eqn:Et; [done|].
  destruct (drop_while is_hash s) as [|c l] eqn:Ed; [done|].
  intros Hc. rewrite <- Hs.
  rewrite <- app_assoc. rewrite take_while_app, drop_while_app by done.
  assert (Hh : is_hash c = false) by (eapply drop_while_head; eauto).
  simpl. by rewrite Hh.
Qed.

Lemma header_at_nl_head s : at_line_end s → header_at s = false.
Proof.
  intros [->|H]; [done|].
  destruct s as [|c s]; [done|]. simpl in H. injection H as ->. done.
Qed.

Lemma header_at_not_hash c s : is_hash c = false → header_at (c :: s) = false.
Proof. intros H. unfold header_at. simpl. by rewrite H. Qed.

(** ** The substitution *)

Lemma re_sub_from_nil bol : re_sub_from bol [] = [].
Proof. by simp re_sub_from. Qed.

Lemma re_sub_from_cons bol c s' :
  re_sub_from bol (c :: s') =
  match (if bol then header_match (c :: s') else None) with
  | Some (m, r) => re_sub_from (ends_with_nl m) r
  | None => c :: re_sub_from (is_nl c) s'
  end.
Proof.
  simp re_sub_from.
  destruct (Logic.inspect _) as [[[m r]|] H]; simpl; by rewrite H.
Qed.

Lemma re_sub_from_copy bol c s' :
  (bol = true → header_at (c :: s') = false) →
  re_sub_from bol (c :: s') = c :: re_sub_from (is_nl c) s'.
Proof.
  intros H. rewrite re_sub_from_cons. destruct bol; [|done].
  apply header_match_None in H; [|done]. by rewrite H.
Qed.

Lemma re_sub_from_match c s' m r :
  header_match (c :: s') = Some (m, r) →
  re_sub_from true (c :: s') = re_sub_from (ends_with_nl m) r.
Proof. intros H. rewrite re_sub_from_cons. by rewrite H. Qed.

(** Where no header can start, the flag is irrelevant. *)
Lemma re_sub_from_flag b b' s :
  header_at s = false → re_sub_from b s = re_sub_from b' s.
Proof.
  intros H. destruct s as [|c s]; [by rewrite !re_sub_from_nil|].
  rewrite !re_sub_from_copy by done. done.
Qed.

Lemma re_sub_from_line_end b b' s :
  at_line_end s → re_sub_from b s = re_sub_from b' s.
Proof. intros H. apply re_sub_from_flag. by apply header_at_nl_head. Qed.

(** Inside a line the scan copies. *)
Lemma re_sub_from_inside l s :
  Forall (λ c, not_nl c = true) l →
  re_sub_from false (l ++ s) = l ++ re_sub_from false s.
Proof.
  induction 1 as [|c l Hc _ IH]; simpl; [done|].
  rewrite re_sub_from_copy by done.
  unfold not_nl in Hc. apply negb_true_iff in Hc. rewrite Hc. by rewrite IH.
Qed.

Lemma length_ind {A} (P : list A → Prop) :
  (∀ s, (∀ t, (length t < length s)%nat → P t) → P s) → ∀ s, P s.
Proof.
  intros H s. remember (length s) as n eqn:E. revert s E.
  induction n as [n IH] using lt_wf_ind. intros s ->.
  apply H. intros t Ht. by apply (IH (length t)).
Qed.

Lemma re_sub_from_length b s : (length (re_sub_from b s) ≤ length s)%nat.
Proof.
  revert b. induction s as [s IH] using length_ind. intros b.
  destruct s as [|c s']; [by rewrite re_sub_from_nil|].
  rewrite re_sub_from_cons.
  destruct (if b then header_match (c :: s') else None) as [[m r]|] eqn:E.
  - destruct b; [|done]. apply header_match_length in E as Hl.
    specialize (IH r Hl (ends_with_nl m)). lia.
  - simpl. specialize (IH s' ltac:(simpl; lia) (is_nl c)). lia.
Qed.

(** ** Texts without headers *)

Lemma no_header_true_false s :
  no_header true s = negb (header_at s) && no_header false s.
Proof. destruct s as [|c s]; [done|]. done. Qed.

Lemma no_header_weaken b s : no_header b s = true → no_header false s = true.
Proof.
  destruct b; [|done]. rewrite no_header_true_false.
  by intros [_ ?]%andb_true_iff.
Qed.

(** A text without headers is left alone by the substitution. *)
Lemma re_sub_from_fixed b s : no_header b s = true → re_sub_from b s = s.
Proof.
  revert b. induction s as [|c s IH]; intros b H; [by rewrite re_sub_from_nil|].
  simpl in H. apply andb_true_iff in H as [H1 H2].
  rewrite re_sub_from_copy.
  - by rewrite IH.
  - intros ->. simpl in H1. by apply negb_true_iff in H1.
Qed.

(** The first line is copied by a scan that starts inside a line, so
    the header test reads the same characters before and after. *)
Lemma header_at_re_sub_false s :
  header_at (re_sub_from false s) = header_at s.
Proof.
  rewrite <- (take_drop_while is_hash s) at 1.
  rewrite re_sub_from_inside.
  2:{ eapply Forall_impl; [apply take_while_all|].
      intros c Hc. simpl in Hc. unfold not_nl. by rewrite hash_not_nl. }
  unfold header_at at 2.
  pose proof (take_while_all is_hash s) as Ha.
  destruct (drop_while is_hash s) as [|d l] eqn:Ed.
  - rewrite re_sub_from_nil, app_nil_r.
    unfold header_at. rewrite take_while_id, drop_while_nil by done.
    by destruct (take_while is_hash s).
  - rewrite re_sub_from_copy by done.
    assert (Hd : is_hash d = false) by (eapply drop_while_head; eauto).
    unfold header_at. rewrite take_while_app, drop_while_app by done.
    simpl. rewrite Hd. rewrite app_nil_r. done.
Qed.

(** The output of the substitution carries no header at a line start. *)
Lemma no_header_re_sub s : ∀ b, no_header b (re_sub_from b s) = true.
Proof.
  induction s as [s IH] using length_ind. intros b.
  destruct s as [|c s']; [by rewrite re_sub_from_nil|].
  rewrite re_sub_from_cons.
  destruct (if b then header_match (c :: s') else None) as [[m r]|] eqn:E.
  - destruct b; [|done].
    apply header_match_length in E as Hl.
    apply header_match_Some in E as (_ & _ & _ & Hr).
    rewrite (re_sub_from_line_end _ true) by done.
    destruct Hr as [->|Hr]; [by rewrite re_sub_from_nil|].
    destruct r as [|d r']; [done|]. simpl in Hr. injection Hr as ->.
    rewrite re_sub_from_copy by done.
    cbn [no_header]. rewrite header_at_not_hash by done.
    change (is_nl chr_nl) with true. simpl.
    apply IH. simpl in *. lia.
  - simpl. apply andb_true_iff. split.
    + destruct b; [|done]. simpl. apply negb_true_iff.
      apply header_match_None in E.
      destruct (is_hash c) eqn:Hc; [|by apply header_at_not_hash].
      rewrite <- (re_sub_from_copy false c s') by done.
      by rewrite header_at_re_sub_false.
    + apply IH. simpl. lia.
Qed.

(** The substitution alone is idempotent. *)
Lemma re_sub_headers_idem text :
  re_sub_headers (re_sub_headers text) = re_sub_headers text.
Proof.
  unfold re_sub_headers. apply re_sub_from_fixed, no_header_re_sub.
Qed.

Lemma no_header_suffix b x y :
  no_header b (x ++ y) = true → no_header false y = true.
Proof.
  revert b. induction x as [|c x IH]; intros b; simpl.
  - apply no_header_weaken.
  - intros [_ H]%andb_true_iff. by eapply IH.
Qed.

Lemma no_header_prefix b x y :
  no_header b (x ++ y) = true → no_header b x = true.
Proof.
  revert b. induction x as [|c x IH]; intros b; simpl; [done|].
  intros [H1 H2]%andb_true_iff. apply andb_true_iff. split; [|by eapply IH].
  destruct b; [|done]. simpl in *. apply negb_true_iff in H1.
  apply negb_true_iff. destruct (header_at (c :: x)) eqn:E; [|done].
  apply (header_at_app _ y) in E. simpl in E. congruence.
Qed.

(** ** Trimming *)

Lemma lstrip_suffix s : ∃ w, s = w ++ lstrip s.
Proof. apply drop_while_suffix. Qed.

Lemma rstrip_prefix s : ∃ w, s = rstrip s ++ w.
Proof.
  unfold rstrip. destruct (drop_while_suffix isspace (reverse s)) as [w Hw].
  exists (reverse w). rewrite <- reverse_app, <- Hw. by rewrite reverse_involutive.
Qed.

Lemma lstrip_head s c : head (lstrip s) = Some c → isspace c = false.
Proof.
  unfold lstrip. destruct (drop_while isspace s) as [|x l] eqn:E; [done|].
  intros [= ->]. eapply drop_while_head; eauto.
Qed.

Lemma rstrip_last s c : last (rstrip s) = Some c → isspace c = false.
Proof.
  unfold rstrip. rewrite last_reverse. 
  destruct (drop_while isspace (reverse s)) as [|x l] eqn:E; [done|].
  intros [= ->]. eapply drop_while_head; eauto.
Qed.

Lemma rstrip_head s c : head (rstrip s) = Some c → head s = Some c.
Proof.
  destruct (rstrip_prefix s) as [w Hw]. intros H. rewrite Hw.
  destruct (rstrip s); [done|]. done.
Qed.

Lemma lstrip_id s : (∀ c, head s = Some c → isspace c = false) → lstrip s = s.
Proof. apply drop_while_id. Qed.

Lemma rstrip_id s : (∀ c, last s = Some c → isspace c = false) → rstrip s = s.
Proof.
  intros H. unfold rstrip. rewrite drop_while_id.
  - apply reverse_involutive.
  - intros c. rewrite head_reverse. apply H.
Qed.

Lemma strip_head s c : head (strip s) = Some c → isspace c = false.
Proof. unfold strip. intros H%rstrip_head. by eapply lstrip_head. Qed.

Lemma strip_last s c : last (strip s) = Some c → isspace c = false.
Proof. apply rstrip_last. Qed.

Lemma strip_idem s : strip (strip s) = strip s.
Proof.
  unfold strip at 1. rewrite lstrip_id by apply strip_head.
  apply rstrip_id, strip_last.
Qed.

Lemma strip_length s : (length (strip s) ≤ length s)%nat.
Proof.
  unfold strip, rstrip, lstrip. rewrite length_reverse.
  etrans; [apply drop_while_length|]. rewrite length_reverse.
  apply drop_while_length.
Qed.

Lemma strip_middle s : ∃ u v, s = u ++ strip s ++ v.
Proof.
  destruct (lstrip_suffix s) as [u Hu].
  destruct (rstrip_prefix (lstrip s)) as [v Hv].
  exists u, v. unfold strip. by rewrite <- Hv.
Qed.

(** ** The post-processor *)

Lemma clean_no_header_inside text :
  no_header false (_clean_description text) = true.
Proof.
  unfold _clean_description.
  destruct (strip_middle (re_sub_headers text)) as (u & v & E).
  pose proof (no_header_re_sub text true) as H.
  fold (re_sub_headers text) in H. rewrite E in H.
  apply no_header_suffix in H. by apply no_header_prefix in H.
Qed.

(** Cleaning a cleaned text changes it exactly when it begins with a
    header that trimming has brought to the front. *)
Lemma clean_twice text :
  _clean_description (_clean_description text) = _clean_description text
  ↔ header_at (_clean_description text) = false.
Proof.
  set (C := _clean_description text). split.
  - intros E. destruct (header_at C) eqn:Hh; [exfalso|done].
    apply header_match_is_Some in Hh as (m & r & Hm).
    apply (f_equal length) in E.
    assert (length (_clean_description C) < length C)%nat; [|lia].
    unfold _clean_description at 1, re_sub_headers.
    eapply Nat.le_lt_trans; [apply strip_length|].
    destruct C as [|c C']; [done|].
    rewrite (re_sub_from_match _ _ _ _ Hm).
    eapply Nat.le_lt_trans; [apply re_sub_from_length|].
    by apply header_match_length in Hm.
  - intros Hh. unfold _clean_description at 1, re_sub_headers.
    rewrite re_sub_from_fixed.
    + apply strip_idem.
    + rewrite no_header_true_false, Hh. apply clean_no_header_inside.
Qed.

(** ** Header lines are removed *)









(** ** Texts that do not begin with a header *)

(** Leading whitespace is copied by the substitution. *)
Lemma re_sub_from_spaces ws rest :
  Forall (λ c, isspace c = true) ws →
  ∀ b, ∃ b', re_sub_from b (ws ++ rest) = ws ++ re_sub_from b' rest.
Proof.
  induction 1 as [|c ws Hc _ IH]; intros b; [by exists b|].
  simpl app. rewrite re_sub_from_copy.
  - destruct (IH (is_nl c)) as [b' ->]. by exists b'.
  - intros _. apply header_at_not_hash.
    destruct (is_hash c) eqn:E; [|done].
    apply hash_not_space in E. congruence.
Qed.

Lemma rstrip_keeps_head d s :
  isspace d = false → ∃ s', rstrip (d :: s) = d :: s'.
Proof.
  intros Hd. unfold rstrip. rewrite reverse_cons, drop_while_snoc by done.
  rewrite reverse_snoc. eauto.
Qed.

(** When the first character of the text that is not whitespace is not
    a [#], the cleaned text does not begin with a header. *)
Lemma clean_head_not_hash text :
  (∀ c, head (lstrip text) = Some c → is_hash c = false) →
  header_at (_clean_description text) = false.
Proof.
  intros Hh. unfold _clean_description, re_sub_headers, strip.
  rewrite <- (take_drop_while isspace text).
  destruct (re_sub_from_spaces (take_while isspace text)
              (drop_while isspace text) (take_while_all _ _) true) as [b ->].
  unfold lstrip in Hh |- *.
  rewrite drop_while_app by apply take_while_all.
  destruct (drop_while isspace text) as [|d rest] eqn:E.
  - by rewrite re_sub_from_nil.
  - pose proof (drop_while_head _ _ _ _ E) as Hd.
    pose proof (Hh d eq_refl) as Hd'.
    rewrite re_sub_from_copy by (intros _; by apply header_at_not_hash).
    rewrite drop_while_stop by done.
    destruct (rstrip_keeps_head d (re_sub_from (is_nl d) rest) Hd) as [s' ->].
    by apply header_at_not_hash.
Qed.

(** ** Prefixes, occurrences and replacement *)

(** A property of every character of a literal is checked character by
    character. *)
Ltac literal_chars := unfold py; simpl; repeat constructor; done.

Lemma is_prefix_app p r : is_prefix p (p ++ r) = true.
Proof. induction p as [|a p IH]; simpl; [done|]. by rewrite N.eqb_refl. Qed.

Lemma is_prefix_lookup p s :
  is_prefix p s = true → ∀ j x, p !! j = Some x → s !! j = Some x.
Proof.
  revert s. induction p as [|a p IH]; intros s H j x Hj; [done|].
  destruct s as [|b s]; [done|]. simpl in H.
  apply andb_true_iff in H as [Hab H]. apply N.eqb_eq in Hab as ->.
  destruct j as [|j]; [done|]. simpl in *. by eapply IH.
Qed.

Lemma is_prefix_head_ne a p c s : a ≠ c → is_prefix (a :: p) (c :: s) = false.
Proof. intros H. simpl. apply N.eqb_neq in H. by rewrite H. Qed.

Lemma contains_cons sub c s :
  contains sub (c :: s) = is_prefix sub (c :: s) || contains sub s.
Proof. done. Qed.

Lemma contains_app_r sub a b : contains sub b = true → contains sub (a ++ b) = true.
Proof.
  intros H. induction a as [|c a IH]; [done|].
  simpl app. rewrite contains_cons, IH. apply orb_true_r.
Qed.

Lemma contains_prefix sub r : contains sub (sub ++ r) = true.
Proof.
  destruct (sub ++ r) eqn:E; simpl; rewrite <- E, is_prefix_app; done.
Qed.

Lemma replace_cons o old' new c s' :
  replace (o :: old') new (c :: s') =
  if is_prefix (o :: old') (c :: s')
  then new ++ replace (o :: old') new (drop (length old') s')
  else c :: replace (o :: old') new s'.
Proof.
  simp replace. by destruct (is_prefix (o :: old') (c :: s')).
Qed.

Lemma replace_nil o old' new : replace (o :: old') new [] = [].
Proof. by simp replace. Qed.


(** Where no occurrence starts, the text is copied. *)
Lemma replace_skip o old' new a b :
  (∀ i, (i < length a)%nat → is_prefix (o :: old') (drop i (a ++ b)) = false) →
  replace (o :: old') new (a ++ b) = a ++ replace (o :: old') new b.
Proof.
  induction a as [|c a IH]; intros H; [done|].
  simpl app. rewrite replace_cons.
  pose proof (H 0%nat ltac:(simpl; lia)) as H0. simpl in H0 |- *.
  rewrite H0. f_equal. apply IH.
  intros i Hi. apply (H (S i)). simpl. lia.
Qed.

(** A stretch without the first character of the pattern is copied. *)
Lemma replace_skip_head o old' new pre rest :
  Forall (λ c, c ≠ o) pre →
  replace (o :: old') new (pre ++ rest) = pre ++ replace (o :: old') new rest.
Proof.
  induction 1 as [|c pre Hc _ IH]; [done|].
  simpl app. rewrite replace_cons, is_prefix_head_ne by done. by rewrite IH.
Qed.

Lemma replace_cons_nonempty o old' new c s :
  new ≠ [] → replace (o :: old') new (c :: s) ≠ [].
Proof.
  intros Hn. rewrite replace_cons. destruct (is_prefix _ _); [|done].
  by destruct new.
Qed.

Lemma replace_hit o old' new b :
  replace (o :: old') new ((o :: old') ++ b) = new ++ replace (o :: old') new b.
Proof.
  simpl app. rewrite replace_cons.
  change (o :: old' ++ b) with ((o :: old') ++ b). rewrite is_prefix_app.
  by rewrite drop_app_length.
Qed.

(** ** Decimal numerals and percent-encoding *)

Definition is_digit_or_minus (c : N) : Prop := (48 ≤ c ∧ c ≤ 57) ∨ c = 45.

Lemma string_of_uint_digits d :
  Forall is_digit_or_minus (py (NilEmpty.string_of_uint d)).
Proof.
  induction d; simpl; constructor; try done; left; unfold py; simpl; lia.
Qed.

Lemma str_of_int_digits n : Forall is_digit_or_minus (str_of_int n).
Proof.
  unfold str_of_int, NilZero.string_of_int, NilZero.string_of_uint.
  destruct (Z.to_int n) as [d|d].
  - destruct d; try apply string_of_uint_digits.
    constructor; [left; simpl; lia|constructor].
  - change (Forall is_digit_or_minus (45 :: py (match d with
        | Nil => "0"%string | _ => NilEmpty.string_of_uint d end))).
    constructor; [by right|].
    destruct d; try apply string_of_uint_digits.
    constructor; [left; simpl; lia|constructor].
Qed.

Lemma hex_digit_range d : let h := hex_digit d in (48 ≤ h ∧ h ≤ 57) ∨ 65 ≤ h.
Proof. unfold hex_digit. destruct (N.ltb_spec d 10); lia. Qed.

(** The characters [quote] produces: none of [=], [?], [&]. *)
Definition is_quoted_char (c : N) : Prop := c ≠ 61 ∧ c ≠ 63 ∧ c ≠ 38.

Lemma quote_bytes_chars bs : Forall is_quoted_char (quote_bytes bs).
Proof.
  unfold quote_bytes. induction bs as [|b bs IH]; simpl; [constructor|].
  apply Forall_app. split; [|done]. unfold quote_byte.
  destruct (always_safe b || (b =? 47)) eqn:E.
  - constructor; [|constructor]. repeat split; intros ->; done.
  - pose proof (hex_digit_range (b / 16)). pose proof (hex_digit_range (b `mod` 16)).
    unfold is_quoted_char. simpl in *. repeat constructor; lia.
Qed.

Lemma quote_bytes_no_eq bs : Forall (λ c, c ≠ 61) (quote_bytes bs).
Proof.
  eapply Forall_impl; [apply quote_bytes_chars|]. by intros c (? & _).
Qed.




(** ** Query parameters *)



(** ** The request URL *)

Lemma api_key_param_spec key :
  api_key_param key
  = if key_configured key then py "&api_key=" ++ default [] key else [].
Proof. by destruct key as [[|c k]|]. Qed.

(** The URL of the source is the URL of the specification for the
    primary model. *)
Lemma pollinations_url_spec enc seed key :
  pollinations_url enc seed key = spec_request_url (py "flux") enc seed key.
Proof.
  unfold pollinations_url, spec_request_url. rewrite api_key_param_spec.
  unfold spec_base. rewrite <- ?app_assoc. reflexivity.
Qed.

Lemma url_split enc seed key :
  pollinations_url enc seed key
  = ((py "https://image.pollinations.ai/prompt/" ++ enc ++ py ".png?")
       ++ py "width=1280&height=720&")
    ++ py "model=flux"
    ++ (py "&nologo=true&seed=" ++ str_of_int seed) ++ api_key_param key.
Proof.
  unfold pollinations_url. rewrite <- ?app_assoc. reflexivity.
Qed.

Lemma url_turbo_split enc seed key :
  spec_request_url (py "turbo") enc seed key
  = ((py "https://image.pollinations.ai/prompt/" ++ enc ++ py ".png?")
       ++ py "width=1280&height=720&")
    ++ py "model=turbo"
    ++ (py "&nologo=true&seed=" ++ str_of_int seed) ++ api_key_param key.
Proof.
  unfold spec_request_url, spec_base. rewrite api_key_param_spec.
  rewrite <- ?app_assoc. reflexivity.
Qed.

(** The guard of line 114 always holds. *)
Lemma url_contains_flux enc seed key :
  contains (py "model=flux") (pollinations_url enc seed key) = true.
Proof. rewrite url_split. apply contains_app_r, contains_prefix. Qed.

Lemma no_flux_before_model enc i r :
  Forall (λ c, c ≠ 61) enc →
  let a := (py "https://image.pollinations.ai/prompt/" ++ enc ++ py ".png?")
             ++ py "width=1280&height=720&" in
  (i < length a)%nat →
  is_prefix (py "model=flux") (drop i (a ++ py "model=flux" ++ r)) = false.
Proof.
  intros Henc a Hi.
  set (a' := py "https://image.pollinations.ai/prompt/" ++ enc ++ py ".png?").
  destruct (decide (i < length a')%nat) as [Hlt|Hge].
  - destruct (is_prefix _ _) eqn:E; [exfalso|done].
    pose proof (is_prefix_lookup _ _ E 5%nat 61 eq_refl) as Hl.
    rewrite lookup_drop in Hl.
    assert (Hs : a ++ py "model=flux" ++ r
                 = (a' ++ py "width") ++ py "=1280&height=720&model=flux" ++ r).
    { unfold a. fold a'. rewrite <- ?app_assoc. reflexivity. }
    rewrite Hs in Hl. rewrite lookup_app_l in Hl.
    2:{ rewrite length_app. change (length (py "width")) with 5%nat. lia. }
    apply list_elem_of_lookup_2 in Hl.
    assert (Hall : Forall (λ c, c ≠ 61) (a' ++ py "width")).
    { unfold a'. rewrite !Forall_app. split; [split; [|split]|]; [|done| |].
      all: literal_chars. }
    rewrite Forall_forall in Hall. by apply (Hall 61).
  - assert (∃ j, i = (length a' + j)%nat ∧ (j < 22)%nat) as (j & -> & Hj).
    { exists (i - length a')%nat. split; [lia|].
      unfold a in Hi. fold a' in Hi. rewrite length_app in Hi.
      change (length (py "width=1280&height=720&")) with 22%nat in Hi. lia. }
    unfold a. fold a'. rewrite <- !app_assoc.
    rewrite drop_app_add'; [|done].
    do 22 (destruct j as [|j]; [reflexivity|]). lia.
Qed.

(** In general the replacement also reaches an occurrence inside the
    key, and nothing else. *)
Lemma replace_model_flux_key bs seed key :
  replace (py "model=flux") (py "model=turbo")
    (pollinations_url (quote_bytes bs) seed key)
  = spec_request_url (py "turbo") (quote_bytes bs) seed
      (replace (py "model=flux") (py "model=turbo") <$> key).
Proof.
  rewrite url_split, url_turbo_split.
  change (py "model=flux") with (109 :: py "odel=flux") at 1.
  rewrite replace_skip.
  2:{ intros i Hi. by apply no_flux_before_model; [apply quote_bytes_no_eq|]. }
  f_equal.
  change (py "model=flux") with (109 :: py "odel=flux").
  rewrite replace_hit. f_equal.
  rewrite <- !app_assoc. rewrite replace_skip_head.
  2:{ literal_chars. }
  f_equal. rewrite replace_skip_head.
  2:{ eapply Forall_impl; [apply str_of_int_digits|].
      intros c [?| ->]; [lia|done]. }
  f_equal.
  destruct key as [[|c k]|]; cbn [fmap option_fmap option_map api_key_param].
  - by rewrite !replace_nil.
  - rewrite replace_skip_head.
    2:{ literal_chars. }
    pose proof (replace_cons_nonempty 109 (py "odel=flux") (py "model=turbo") c k
                  ltac:(done)) as Hne.
    destruct (replace _ _ (c :: k)); done.
  - by rewrite replace_nil.
Qed.




(** ** The steps of the service *)

Lemma py_in_dict k d :
  py_in k (JDict d) = Return (if d !! k is Some _ then true else false).
Proof.
  unfold py_in. f_equal. destruct (d !! k) eqn:E.
  - by apply bool_decide_eq_true_2.
  - apply bool_decide_eq_false_2. by intros [? ?].
Qed.

Section ServiceFacts.
Context (W : oracle).

Lemma logged_printable e : printable e = true → logged e = e.
Proof. unfold logged. by intros ->. Qed.

Lemma printable_logged e : printable (logged e) = true.
Proof. unfold logged. by destruct (printable e) eqn:E. Qed.

(** A handler that prints the exception and raises it again. *)
Lemma try_except_log {A} (m : M A) st :
  try_except m (λ e, let* _ := print_exception e in raise e) st
  = match m st with
    | (Return a, st') => (Return a, st')
    | (Raise e, st') => (Raise (logged e), st')
    end.
Proof.
  unfold try_except, bind, print_exception, raise, ret, logged.
  destruct (m st) as [[a|e] st']; [done|]. by destruct (printable e).
Qed.


Lemma absorbed_result d e st :
  absorbed d e st = (Return (with_image_url d []), st)
  ∨ absorbed d e st = (Raise UnicodeEncodeError, st).
Proof. unfold absorbed. destruct (printable e); [by left|by right]. Qed.

Lemma absorbed_printable d e st :
  printable e = true → absorbed d e st = (Return (with_image_url d []), st).
Proof. unfold absorbed. by intros ->. Qed.

(** The handler of the download. *)
Lemma download_handler d e st :
  (let* _ := print_exception e in
   lift (setitem (JDict d) (py "imageUrl") (JStr []))) st
  = absorbed d e st.
Proof.
  unfold bind, print_exception, lift, ret, raise, absorbed.
  by destruct (printable e).
Qed.

(** *** Post-processing *)

Lemma post_process_dict d st :
  post_process (JDict d) st =
  match d !! py "description" with
  | None => (Return (JDict d), st)
  | Some (JStr s) =>
      (Return (JDict (<[py "description" := JStr (_clean_description s)]> d)), st)
  | Some _ => (Raise TypeError, st)
  end.
Proof.
  unfold post_process, bind, lift, ret. rewrite py_in_dict.
  unfold getitem. destruct (d !! py "description") as [[]|]; done.
Qed.

Lemma post_process_nondict v st :
  (∀ d, v ≠ JDict d) →
  post_process v st = (Return v, st)
  ∨ post_process v st = (Raise TypeError, st).
Proof.
  intros Hv. unfold post_process, bind, lift, ret.
  destruct v; simpl; try (by right); try (by left).
  - destruct (contains _ _); [by right|by left].
  - destruct (existsb _ _); [by right|by left].
  - by destruct (Hv d).
Qed.

(** *** The image step *)

Lemma image_step_nondict v st :
  (∀ d, v ≠ JDict d) → (image_step W v st).1 = Raise TypeError.
Proof.
  intros Hv. unfold image_step, bind, lift, randint.
  destruct v; simpl; try done.
  - by destruct (contains _ _).
  - by destruct (existsb _ _).
  - by destruct (Hv d).
Qed.

Lemma image_step_no_prompt d st :
  d !! py "image_prompt" = None →
  image_step W (JDict d) st = (Return (with_image_url d []), st).
Proof.
  intros H. unfold image_step, bind, lift. rewrite py_in_dict, H. done.
Qed.

Lemma image_step_bad_prompt d v st :
  d !! py "image_prompt" = Some v → as_str v = None →
  image_step W (JDict d) st = (Raise TypeError, after_draw st).
Proof.
  intros H Hv. unfold image_step, bind, lift, randint.
  rewrite py_in_dict, H. simpl. rewrite H. by destruct v.
Qed.

Lemma image_step_unencodable d p st :
  d !! py "image_prompt" = Some (JStr p) →
  utf8_encode (spec_styled_prompt p) = None →
  image_step W (JDict d) st = (Raise UnicodeEncodeError, after_draw st).
Proof.
  intros H Hq. unfold image_step, bind, lift, randint, quote.
  rewrite py_in_dict, H. simpl. rewrite H. simpl.
  unfold spec_styled_prompt in Hq. by rewrite Hq.
Qed.

Lemma image_step_download d p bs st :
  d !! py "image_prompt" = Some (JStr p) →
  utf8_encode (spec_styled_prompt p) = Some bs →
  image_step W (JDict d) st =
  download W (JDict d) (pollinations_url (quote_bytes bs)
                (random_randint W (draws st))
                (os_getenv W (py "POLLINATIONS_API_KEY")))
           (after_draw st).
Proof.
  intros H Hq. unfold image_step, bind, lift, randint, quote.
  rewrite py_in_dict, H. simpl. rewrite H. simpl.
  unfold spec_styled_prompt in Hq. by rewrite Hq.
Qed.
End ServiceFacts.

Section DownloadFacts.
Context (W : oracle).

Lemma store_image_dict d resp st :
  let u := uuid_uuid4 W (uuids st) in
  let path := upload_path (os_getcwd W) u in
  store_image W (JDict d) resp st =
  match write_file W path (content resp) with
  | None => (Return (with_image_url d (upload_url u)),
             after_save path (content resp) (after_uuid st))
  | Some e => (Raise e, after_uuid st)
  end.
Proof.
  unfold store_image, bind, lift, uuid4, save. simpl.
  fold (upload_path (os_getcwd W) (uuid_uuid4 W (uuids st))).
  by destruct (write_file _ _ _).
Qed.

Lemma download_transport_error d url st e :
  requests_get W (length (sent st)) (request_for url) = Raise e →
  download W (JDict d) url st = absorbed d e (after_get (request_for url) st).
Proof.
  intros H. unfold download, try_except. unfold bind at 1, get.
  rewrite H. apply download_handler.
Qed.

Lemma download_primary_image d url st resp :
  requests_get W (length (sent st)) (request_for url) = Return resp →
  is_image resp = true →
  download W (JDict d) url st = stored W d resp (after_get (request_for url) st).
Proof.
  intros H Hi. unfold download, try_except. unfold bind at 1, get.
  rewrite H, Hi, store_image_dict. unfold stored. simpl.
  destruct (write_file _ _ _); [apply download_handler|done].
Qed.

Lemma download_retry d url st resp :
  requests_get W (length (sent st)) (request_for url) = Return resp →
  is_image resp = false →
  contains (py "model=flux") url = true →
  let retry := request_for (replace (py "model=flux") (py "model=turbo") url) in
  let st1 := after_get (request_for url) st in
  download W (JDict d) url st =
  match requests_get W (S (length (sent st))) retry with
  | Raise e => absorbed d e (after_get retry st1)
  | Return resp2 =>
      if is_image resp2 then stored W d resp2 (after_get retry st1)
      else (Return (with_image_url d []), after_get retry st1)
  end.
Proof.
  intros H Hi Hc. cbv zeta. unfold download, try_except.
  unfold bind at 1, get. rewrite H, Hi, Hc.
  unfold bind at 1. simpl. rewrite length_app. simpl.
  rewrite Nat.add_1_r.
  destruct (requests_get W (S _) _) as [resp2|e]; [|apply download_handler].
  destruct (is_image resp2); [|done].
  rewrite store_image_dict. unfold stored. simpl.
  destruct (write_file _ _ _); [apply download_handler|done].
Qed.

Lemma download_no_fallback d url st resp :
  requests_get W (length (sent st)) (request_for url) = Return resp →
  is_image resp = false →
  contains (py "model=flux") url = false →
  download W (JDict d) url st
  = (Return (with_image_url d []), after_get (request_for url) st).
Proof.
  intros H Hi Hc. unfold download, try_except. unfold bind at 1, get.
  by rewrite H, Hi, Hc.
Qed.

Lemma absorbed_settled d e st : settled d (absorbed d e st).
Proof.
  destruct (absorbed_result d e st) as [-> | ->]; [left; eauto|by right].
Qed.

Lemma stored_settled d resp st : settled d (stored W d resp st).
Proof.
  unfold stored. destruct (write_file _ _ _); [apply absorbed_settled|].
  left. eauto.
Qed.

Lemma download_settled d url st : settled d (download W (JDict d) url st).
Proof.
  destruct (requests_get W (length (sent st)) (request_for url))
    as [resp|e] eqn:H.
  2:{ erewrite download_transport_error by done. apply absorbed_settled. }
  destruct (is_image resp) eqn:Hi.
  { erewrite download_primary_image by done. apply stored_settled. }
  destruct (contains (py "model=flux") url) eqn:Hc.
  - erewrite download_retry by done.
    destruct (requests_get W (S _) _) as [resp2|e2]; [|apply absorbed_settled].
    destruct (is_image resp2); [apply stored_settled|left; eauto].
  - erewrite download_no_fallback by done. left. eauto.
Qed.

Lemma stored_returns d resp st :
  quiet W →
  ∃ u st', stored W d resp st = (Return (with_image_url d u), st').
Proof.
  intros [_ Hq]. unfold stored.
  destruct (write_file _ _ _) as [e|] eqn:E; [|eauto].
  rewrite absorbed_printable by eauto. eauto.
Qed.

(** When every error can be printed, the download returns, with
    [imageUrl] set. *)
Lemma download_returns d url st :
  quiet W →
  ∃ u st', download W (JDict d) url st = (Return (with_image_url d u), st').
Proof.
  intros Hq. pose proof Hq as [Hg _].
  destruct (requests_get W (length (sent st)) (request_for url))
    as [resp|e] eqn:H.
  2:{ erewrite download_transport_error by done.
      rewrite absorbed_printable by eauto. eauto. }
  destruct (is_image resp) eqn:Hi.
  { erewrite download_primary_image by done. by apply stored_returns. }
  destruct (contains (py "model=flux") url) eqn:Hc.
  - erewrite download_retry by done.
    destruct (requests_get W (S _) _) as [resp2|e2] eqn:H2.
    + destruct (is_image resp2); [by apply stored_returns|eauto].
    + rewrite absorbed_printable by eauto. eauto.
  - erewrite download_no_fallback by done. eauto.
Qed.


End DownloadFacts.

(** ** The orchestrator *)

Lemma cleaned_lookup_ne d k :
  k ≠ py "description" → cleaned d !! k = d !! k.
Proof.
  intros Hk. unfold cleaned.
  destruct (d !! py "description") as [[]|]; try done.
  by rewrite lookup_insert_ne.
Qed.


Lemma with_image_url_lookup d u :
  ∃ d', with_image_url d u = JDict d'
        ∧ d' !! py "imageUrl" = Some (JStr u)
        ∧ ∀ k, k ≠ py "imageUrl" → d' !! k = d !! k.
Proof.
  eexists. split; [done|]. split; [apply lookup_insert_eq|].
  intros k Hk. by apply lookup_insert_ne.
Qed.


Section OrchestratorFacts.
Context (W : oracle) (title category start_time end_time : pystr).

Let prompt : pystr :=
  build_prompt (get_format_instructions W) title category start_time end_time.
Let run : M json :=
  generate_event_content W title category start_time end_time.

(** What the image step raises can be printed: the outer handler
    raises it again as it is. *)
Lemma image_step_printable v st e st' :
  image_step W v st = (Raise e, st') → printable e = true.
Proof.
  assert ((∃ d, v = JDict d) ∨ (∀ d, v ≠ JDict d)) as [[d ->]|Hv]
    by (destruct v; eauto; by right).
  2:{ pose proof (image_step_nondict W v st Hv) as Hi. intros E.
      rewrite E in Hi. simpl in Hi. by injection Hi as ->. }
  destruct (d !! py "image_prompt") as [x|] eqn:Hp.
  2:{ by rewrite image_step_no_prompt by done. }
  destruct (as_str x) eqn:Hx.
  2:{ erewrite image_step_bad_prompt by done. by intros [= <- _]. }
  destruct x as [| | | |p| |]; try done.
  destruct (utf8_encode (spec_styled_prompt p)) as [bs|] eqn:Hq.
  2:{ erewrite image_step_unencodable by done. by intros [= <- _]. }
  erewrite image_step_download by done. intros E.
  destruct (download_settled W d
    (pollinations_url (quote_bytes bs) (random_randint W (draws st))
       (os_getenv W (py "POLLINATIONS_API_KEY"))) (after_draw st))
    as [[u Hu]|Hu]; rewrite E in Hu; simpl in Hu; [done|].
  by injection Hu as ->.
Qed.

Lemma image_step_logged v st :
  match image_step W v st with
  | (Return a, st') => (Return a, st')
  | (Raise e, st') => (Raise (logged e), st')
  end = image_step W v st.
Proof.
  destruct (image_step W v st) as [[r|e] st'] eqn:E; [done|].
  by rewrite (logged_printable e (image_step_printable v st e st' E)).
Qed.

(** The call, from what the text chain answers. *)
Lemma generate_run st :
  run st =
  match chain_ainvoke W prompt with
  | Raise e => (Raise (logged e), st)
  | Return v =>
      match post_process v st with
      | (Return v', st') => image_step W v' st'
      | (Raise e, st') => (Raise (logged e), st')
      end
  end.
Proof.
  unfold run, generate_event_content. rewrite try_except_log.
  unfold bind at 1, ainvoke, lift at 1. fold prompt.
  destruct (chain_ainvoke W prompt) as [v|e]; [|done].
  unfold bind. destruct (post_process v st) as [[v'|e] st']; [|done].
  apply image_step_logged.
Qed.

Lemma generate_text_raises e st :
  chain_ainvoke W prompt = Raise e → run st = (Raise (logged e), st).
Proof. intros H. by rewrite generate_run, H. Qed.

Lemma generate_nondict v st :
  chain_ainvoke W prompt = Return v → (∀ d, v ≠ JDict d) →
  (run st).1 = Raise TypeError.
Proof.
  intros H Hv. rewrite generate_run, H.
  destruct (post_process_nondict v st Hv) as [-> | ->]; [|done].
  apply image_step_nondict, Hv.
Qed.

Lemma generate_dict d st :
  chain_ainvoke W prompt = Return (JDict d) →
  run st =
  match d !! py "description" with
  | None | Some (JStr _) => image_step W (JDict (cleaned d)) st
  | Some _ => (Raise TypeError, st)
  end.
Proof.
  intros H. rewrite generate_run, H, post_process_dict. unfold cleaned.
  by destruct (d !! py "description") as [[]|].
Qed.

(** On a dictionary the image step returns the dictionary with
    [imageUrl] set, or raises. *)
Lemma image_step_returns d st r st' :
  image_step W (JDict d) st = (Return r, st') →
  ∃ u, r = with_image_url d u.
Proof.
  destruct (d !! py "image_prompt") as [v|] eqn:Hp.
  2:{ rewrite image_step_no_prompt by done. intros [= <- _]. eauto. }
  destruct (as_str v) eqn:Hv.
  2:{ by erewrite image_step_bad_prompt by done. }
  destruct v as [| | | |p| |]; try done.
  destruct (utf8_encode (spec_styled_prompt p)) as [bs|] eqn:Hq.
  2:{ by erewrite image_step_unencodable by done. }
  erewrite image_step_download by done. intros E.
  destruct (download_settled W d
    (pollinations_url (quote_bytes bs) (random_randint W (draws st))
       (os_getenv W (py "POLLINATIONS_API_KEY"))) (after_draw st))
    as [[u Hu]|Hu]; rewrite E in Hu; simpl in Hu; [|done].
  injection Hu as ->. eauto.
Qed.

Lemma image_step_accepted d st :
  quiet W →
  match d !! py "image_prompt" with
  | None => true
  | Some (JStr p) => bool_decide (is_Some (utf8_encode (spec_styled_prompt p)))
  | _ => false
  end = true →
  ∃ r st', image_step W (JDict d) st = (Return r, st').
Proof.
  intros Hquiet.
  destruct (d !! py "image_prompt") as [v|] eqn:Hp.
  2:{ rewrite image_step_no_prompt by done. eauto. }
  destruct v as [| | | |p| |]; try done.
  intros [bs Hq]%bool_decide_eq_true.
  erewrite image_step_download by done.
  destruct (download_returns W d
    (pollinations_url (quote_bytes bs) (random_randint W (draws st))
       (os_getenv W (py "POLLINATIONS_API_KEY"))) (after_draw st) Hquiet)
    as (u & st'' & ->). eauto.
Qed.

Lemma image_step_rejected d st r st' :
  image_step W (JDict d) st = (Return r, st') →
  match d !! py "image_prompt" with
  | None => true
  | Some (JStr p) => bool_decide (is_Some (utf8_encode (spec_styled_prompt p)))
  | _ => false
  end = true.
Proof.
  destruct (d !! py "image_prompt") as [v|] eqn:Hp; [|done].
  destruct (as_str v) eqn:Hv.
  2:{ by erewrite image_step_bad_prompt by done. }
  destruct v as [| | | |p| |]; try done.
  destruct (utf8_encode (spec_styled_prompt p)) as [bs|] eqn:Hq.
  2:{ by erewrite image_step_unencodable by done. }
  intros _. by apply bool_decide_eq_true_2.
Qed.

(** The call returns on accepted values only. *)
Lemma generate_returns_accepted v st r st' :
  chain_ainvoke W prompt = Return v →
  run st = (Return r, st') → accepted v = true.
Proof.
  intros H.
  assert ((∃ d, v = JDict d) ∨ (∀ d, v ≠ JDict d)) as [[d ->]|Hv']
    by (destruct v; eauto; by right).
  - rewrite (generate_dict d st H). unfold accepted.
    rewrite <- (cleaned_lookup_ne d (py "image_prompt")) by done.
    destruct (d !! py "description") as [[]|]; simpl; try done.
    all: apply image_step_rejected.
  - pose proof (generate_nondict v st H Hv') as Hr.
    intros E. rewrite E in Hr. done.
Qed.

(** When every error can be printed, the call returns on every
    accepted value. *)
Lemma generate_accepted_returns v st :
  quiet W →
  chain_ainvoke W prompt = Return v →
  accepted v = true → ∃ r st', run st = (Return r, st').
Proof.
  intros Hquiet H. destruct v as [| | | | | |d]; try done.
  rewrite (generate_dict d st H). unfold accepted.
  rewrite <- (cleaned_lookup_ne d (py "image_prompt")) by done.
  destruct (d !! py "description") as [[]|]; simpl; try done.
  all: by apply image_step_accepted.
Qed.

Lemma generate_returns_iff v st :
  quiet W →
  chain_ainvoke W prompt = Return v →
  (∃ r st', run st = (Return r, st')) ↔ accepted v = true.
Proof.
  intros Hquiet H. split.
  - intros (r & st' & E). by eapply generate_returns_accepted.
  - by apply generate_accepted_returns.
Qed.

(** A result is the cleaned dictionary with [imageUrl] set. *)
Lemma generate_result d st r st' :
  chain_ainvoke W prompt = Return (JDict d) →
  run st = (Return r, st') →
  ∃ u, r = with_image_url (cleaned d) u.
Proof.
  intros H. rewrite (generate_dict d st H).
  destruct (d !! py "description") as [[]|]; try done.
  all: apply image_step_returns.
Qed.

(** A call that reaches the download is the download, for the URL
    built from the one seed of the call. *)
Lemma generate_download d p bs st :
  reaches_download W title category start_time end_time d p bs →
  run st =
  download W (JDict (cleaned d))
    (spec_request_url (py "flux") (quote_bytes bs)
       (random_randint W (draws st)) (os_getenv W key_name))
    (after_draw st).
Proof.
  intros (Hc & Hd & Hp & Hq). rewrite (generate_dict d st Hc).
  rewrite <- pollinations_url_spec. unfold description_ok in Hd.
  destruct (d !! py "description") as [[]|]; try done.
  all: apply (image_step_download W _ p); [by rewrite cleaned_lookup_ne|done].
Qed.
End OrchestratorFacts.



(** * The claims *)

(** ** The description post-processor *)

(** C7, as stated, fails: cleaning [" # Title"] gives ["# Title"] (the
    pattern is anchored at the line start, so the indented header stays,
    and trimming then moves it to the front), and cleaning that gives
    the empty string. *)
Lemma clean_description_not_idempotent :
  _clean_description (py " # Title") = py "# Title"
  ∧ _clean_description (_clean_description (py " # Title")) = []
  ∧ _clean_description (_clean_description (py " # Title"))
    ≠ _clean_description (py " # Title").
Proof. vm_compute. repeat split; discriminate || reflexivity. Qed.

(** C7, amended.  The header substitution alone is idempotent on every
    text; [_clean_description] applied twice equals [_clean_description]
    applied once exactly when the cleaned text does not begin with a
    header (one or more [#], then a whitespace character) that trimming
    has brought to the front; this is so, in particular, for every text
    whose first character that is not whitespace is not a [#]. *)
Theorem clean_description_idempotent_iff :
  (∀ text, re_sub_headers (re_sub_headers text) = re_sub_headers text)
  ∧ (∀ text,
       _clean_description (_clean_description text) = _clean_description text
       ↔ header_at (_clean_description text) = false)
  ∧ (∀ text,
       (∀ c, head (lstrip text) = Some c → c ≠ chr_hash) →
       _clean_description (_clean_description text) = _clean_description text).
Proof.
  split; [apply re_sub_headers_idem|]. split; [apply clean_twice|].
  intros text Hh. apply clean_twice, clean_head_not_hash.
  intros c Hc. unfold is_hash. apply N.eqb_neq. by apply Hh.
Qed.

Lemma clean_description_idempotent_iff_witness :
  header_at (_clean_description (py "## Agenda
Doors open at nine.  ")) = false
  ∧ _clean_description (_clean_description (py "## Agenda
Doors open at nine.  "))
    = _clean_description (py "## Agenda
Doors open at nine.  ").
Proof.
  split; [vm_compute; reflexivity|].
  apply (proj1 (proj2 clean_description_idempotent_iff)). vm_compute. reflexivity.
Defined.

(** A line made of [#] only is matched as well, through the newline
    that follows it, and the match then runs to the end of the next
    line. *)
Remark clean_description_bare_marker :
  _clean_description (py "#
Body text") = [].
Proof. vm_compute. reflexivity. Qed.



(** ** The orchestrator *)

(** C1.  Whenever [generate_event_content] returns, the result is a
    dictionary that holds the key [imageUrl] with a string value
    (possibly empty), on every path: image stored after the primary or
    the fallback request, both requests failed, an exception absorbed
    by the handler, or no [image_prompt] key at all. *)
Theorem image_url_always_present W title category start_time end_time st r st' :
  generate_event_content W title category start_time end_time st = (Return r, st') →
  ∃ d u, r = JDict d ∧ d !! py "imageUrl" = Some (JStr u).
Proof.
  intros Hrun.
  destruct (chain_ainvoke W
    (build_prompt (get_format_instructions W) title category start_time end_time))
    as [v|e] eqn:Hc.
  2:{ rewrite (generate_text_raises _ _ _ _ _ e st Hc) in Hrun. done. }
  assert ((∃ d, v = JDict d) ∨ (∀ d, v ≠ JDict d)) as [[d ->]|Hv]
    by (destruct v; eauto; by right).
  - destruct (generate_result _ _ _ _ _ d st r st' Hc Hrun) as [u ->].
    destruct (with_image_url_lookup (cleaned d) u) as (d' & -> & Hu & _).
    eauto.
  - pose proof (generate_nondict _ _ _ _ _ v st Hc Hv) as Hr.
    rewrite Hrun in Hr. done.
Qed.

Lemma image_url_always_present_witness :
  let out := sample_call
    (sample_world (Return (JDict sample_content)) None (λ _, Return png_200)) in
  out = (Return (result_of out), out.2)
  ∧ ∃ d u, result_of out = JDict d ∧ d !! py "imageUrl" = Some (JStr u).
Proof.
  intros out.
  assert (H : out = (Return (result_of out), out.2)) by (vm_compute; reflexivity).
  split; [exact H|].
  exact (image_url_always_present _ _ _ _ _ _ _ _ H).
Defined.

(** If the text-generation step raises an exception whose message can
    be printed, the call raises that same exception and nothing else
    happens: no result, no seed drawn, no request sent, no file
    written. *)
Lemma text_failure_propagates W title category start_time end_time st e :
  chain_ainvoke W
    (build_prompt (get_format_instructions W) title category start_time end_time)
  = Raise e →
  printable e = true →
  generate_event_content W title category start_time end_time st = (Raise e, st).
Proof.
  intros Hc He.
  by rewrite (generate_text_raises _ _ _ _ _ e st Hc), logged_printable.
Qed.

(** C4, at the failing input.  The text-generation step raises an
    exception whose message cannot be encoded for the standard output:
    the handler's [print] raises before [raise e] is reached, and the
    caller receives [UnicodeEncodeError] in place of the exception of
    the text step.  With a message that can be printed the same call
    raises the exception of the text step, unchanged.  In both calls no
    seed is drawn, no request sent and no file written. *)
Theorem unprintable_text_failure_is_replaced :
  let W := sample_world (Raise garbled_output_error) None (λ _, Return png_200) in
  let W' := sample_world (Raise gateway_error) None (λ _, Return png_200) in
  chain_ainvoke W
    (build_prompt (get_format_instructions W)
       (py "Launch") (py "Tech") (py "10:00") (py "12:00"))
  = Raise garbled_output_error
  ∧ printable garbled_output_error = false
  ∧ sample_call W = (Raise UnicodeEncodeError, initial)
  ∧ garbled_output_error ≠ UnicodeEncodeError
  ∧ printable gateway_error = true
  ∧ sample_call W' = (Raise gateway_error, initial).
Proof.
  intros W W'. split; [reflexivity|]. split; [vm_compute; reflexivity|].
  split; [vm_compute; reflexivity|]. split; [discriminate|].
  split; [vm_compute; reflexivity|].
  apply (text_failure_propagates W'); [reflexivity|vm_compute; reflexivity].
Qed.

(** The schema is met by the sample content, which the call returns
    as well. *)
Remark sample_content_conforms :
  conforms (JDict sample_content) = true
  ∧ accepted (JDict sample_content) = true.
Proof. split; vm_compute; reflexivity. Qed.






(** ** The image acquisition pipeline *)



(** If both requests fail the success condition, or a transport
    exception is raised during either attempt, and the exceptions of
    the HTTP client can be printed, the call returns a result whose
    [imageUrl] is the empty string: nothing propagates. *)
Lemma failed_download_gives_empty_url W title category start_time end_time st d p bs :
  reaches_download W title category start_time end_time d p bs →
  attempts_fail W (length (sent st))
    (spec_request_url (py "flux") (quote_bytes bs)
       (random_randint W (draws st)) (os_getenv W key_name)) →
  (∀ n r e, requests_get W n r = Raise e → printable e = true) →
  ∃ d' st',
    generate_event_content W title category start_time end_time st
    = (Return (JDict d'), st')
    ∧ d' !! py "imageUrl" = Some (JStr []).
Proof.
  intros Hr Hf Hq. rewrite (generate_download _ _ _ _ _ d p bs st Hr).
  set (url := spec_request_url _ _ _ _) in *.
  unfold attempts_fail in Hf.
  assert (Hgoal : ∀ st' : state, ∃ d'0 (st'0 : state),
            (Return (with_image_url (cleaned d) []), st')
            = (Return (JDict d'0), st'0)
            ∧ d'0 !! py "imageUrl" = Some (JStr [])).
  { intros st'. eexists _, _. split; [done|]. apply lookup_insert_eq. }
  destruct (requests_get W (length (sent st)) (request_for url))
    as [resp|e] eqn:H.
  2:{ erewrite download_transport_error by done.
      rewrite absorbed_printable by eauto. apply Hgoal. }
  destruct Hf as [Hi Hf].
  erewrite download_retry; [|done|done|].
  2:{ unfold url. rewrite <- pollinations_url_spec. apply url_contains_flux. }
  simpl. destruct (requests_get W (S _) _) as [resp2|e2] eqn:H2.
  - rewrite Hf. apply Hgoal.
  - rewrite absorbed_printable by eauto. apply Hgoal.
Qed.

(** C3, at the failing input.  The primary request raises an exception
    whose message cannot be encoded for the standard output: the
    handler's [print] raises before [imageUrl] is set, and the call
    raises [UnicodeEncodeError], with one request sent and no file
    written.  With a message that can be printed the same call returns
    a result whose [imageUrl] is the empty string. *)
Theorem unprintable_download_error_escapes :
  let W := sample_world (Return (JDict sample_content)) None
             (λ _, Raise garbled_transport_error) in
  let W' := sample_world (Return (JDict sample_content)) None
             (λ _, Raise timeout_error) in
  let bs := default [] (utf8_encode (spec_styled_prompt (py "a stage"))) in
  reaches_download W (py "Launch") (py "Tech") (py "10:00") (py "12:00")
    sample_content (py "a stage") bs
  ∧ attempts_fail W 0 (spec_request_url (py "flux") (quote_bytes bs) 7 None)
  ∧ requests_get W 0 (request_for sample_flux_url) = Raise garbled_transport_error
  ∧ printable garbled_transport_error = false
  ∧ (sample_call W).1 = Raise UnicodeEncodeError
  ∧ sent (sample_call W).2 = [request_for sample_flux_url]
  ∧ files (sample_call W).2 = []
  ∧ printable timeout_error = true
  ∧ ∃ d' st', sample_call W' = (Return (JDict d'), st')
              ∧ d' !! py "imageUrl" = Some (JStr []).
Proof.
  intros W W' bs.
  assert (Hr : reaches_download W' (py "Launch") (py "Tech") (py "10:00")
                 (py "12:00") sample_content (py "a stage") bs).
  { repeat split; vm_compute; reflexivity. }
  split; [exact Hr|]. split; [vm_compute; exact I|].
  do 6 (split; [vm_compute; reflexivity|]).
  apply (failed_download_gives_empty_url W' _ _ _ _ initial _ _ _ Hr).
  - vm_compute. exact I.
  - intros n r e [= <-]. reflexivity.
Qed.







(** * Further properties *)

(** ** The post-processor only deletes *)

Lemma re_sub_from_sublist s : ∀ b, re_sub_from b s `sublist_of` s.
Proof.
  induction s as [s IH] using length_ind. intros b.
  destruct s as [|c s']; [by rewrite re_sub_from_nil|].
  rewrite re_sub_from_cons.
  destruct (if b then header_match (c :: s') else None) as [[m r]|] eqn:E.
  - destruct b; [|done]. apply header_match_length in E as Hl.
    apply header_match_Some in E as (_ & -> & _ & _).
    apply sublist_inserts_l. by apply IH.
  - apply sublist_skip. apply IH. simpl. lia.
Qed.

Lemma strip_sublist s : strip s `sublist_of` s.
Proof.
  destruct (strip_middle s) as (u & v & E). rewrite E at 2.
  by apply sublist_inserts_l, sublist_inserts_r.
Qed.

(** A header at a line start makes the substitution shorten the text. *)
Lemma re_sub_from_shortens s :
  ∀ b, no_header b s = false →
       (length (re_sub_from b s) < length s)%nat.
Proof.
  induction s as [|c s IH]; intros b H; [done|].
  simpl in H. rewrite re_sub_from_cons.
  destruct (if b then header_match (c :: s) else None) as [[m r]|] eqn:E.
  - destruct b; [|done]. apply header_match_length in E.
    eapply Nat.le_lt_trans; [apply re_sub_from_length|done].
  - assert (Hh : b && header_at (c :: s) = false).
    { destruct b; [|done]. simpl. by apply header_match_None. }
    rewrite Hh in H. simpl in H |- *. apply IH in H. lia.
Qed.

Lemma no_header_no_hash b s :
  Forall (λ c, c ≠ chr_hash) s → no_header b s = true.
Proof.
  intros H. revert b. induction H as [|c s Hc _ IH]; intros b; [done|].
  simpl. rewrite IH, andb_true_r. apply negb_true_iff.
  rewrite header_at_not_hash; [by destruct b|].
  unfold is_hash. by apply N.eqb_neq.
Qed.

(** ** The bytes and the characters of the encoded prompt *)

Lemma lor_byte a b : a < 256 → b < 256 → N.lor a b < 256.
Proof.
  intros Ha Hb. destruct (N.eq_dec (N.lor a b) 0) as [->|Hz]; [done|].
  change 256 with (2 ^ 8). apply N.log2_lt_pow2; [lia|].
  rewrite N.log2_lor.
  assert (H : ∀ x, x < 256 → N.log2 x < 8).
  { intros x Hx. destruct (N.eq_dec x 0) as [->|Hx0]; [done|].
    apply N.log2_lt_pow2; [lia|done]. }
  apply N.max_lub_lt; by apply H.
Qed.

Lemma land_low6 x : N.land x 0x3F < 64.
Proof.
  change 0x3F with (N.ones 6). rewrite N.land_ones.
  by apply N.mod_lt.
Qed.

Lemma continuation_byte x : N.lor 0x80 (N.land x 0x3F) < 256.
Proof. apply lor_byte; [done|]. pose proof (land_low6 x). lia. Qed.

Lemma shiftr_bound c k n m : c < m → m = 2 ^ k * n → N.shiftr c k < n.
Proof.
  intros H ->. rewrite N.shiftr_div_pow2.
  by apply N.Div0.div_lt_upper_bound.
Qed.

Lemma utf8_encode_char_bytes c bs :
  utf8_encode_char c = Some bs →
  Forall (λ b, b < 256) bs ∧ (length bs ≤ 4)%nat.
Proof.
  unfold utf8_encode_char.
  destruct (N.ltb_spec c 0x80).
  { intros [= <-]. split; [|simpl; lia]. repeat constructor. lia. }
  destruct (N.ltb_spec c 0x800).
  { intros [= <-]. split; [|simpl; lia].
    repeat constructor; [|apply continuation_byte].
    apply lor_byte; [done|]. assert (N.shiftr c 6 < 32); [|lia]. apply (shiftr_bound c 6 32 0x800); [lia|reflexivity]. }
  destruct ((0xD800 <=? c) && (c <=? 0xDFFF)); [done|].
  destruct (N.ltb_spec c 0x10000).
  { intros [= <-]. split; [|simpl; lia].
    repeat constructor; try apply continuation_byte.
    apply lor_byte; [done|]. assert (N.shiftr c 12 < 16); [|lia]. apply (shiftr_bound c 12 16 0x10000); [lia|reflexivity]. }
  destruct (N.leb_spec c 0x10FFFF); [|done].
  intros [= <-]. split; [|simpl; lia].
  repeat constructor; try apply continuation_byte.
  apply lor_byte; [done|]. assert (N.shiftr c 18 < 5); [|lia]. apply (shiftr_bound c 18 5 0x140000); [lia|reflexivity].
Qed.

Lemma utf8_encode_bytes s bs :
  utf8_encode s = Some bs →
  Forall (λ b, b < 256) bs ∧ (length bs ≤ 4 * length s)%nat.
Proof.
  revert bs. induction s as [|c s IH]; simpl; intros bs.
  { intros [= <-]. split; [constructor|simpl; lia]. }
  destruct (utf8_encode_char c) as [b|] eqn:Hc; [|done]. simpl.
  destruct (utf8_encode s) as [r|] eqn:Hs; [|done]. simpl.
  intros [= <-].
  destruct (utf8_encode_char_bytes c b Hc) as [Hb Hl].
  destruct (IH r eq_refl) as [Hr Hlr].
  split; [by apply Forall_app|]. rewrite length_app. lia.
Qed.

Lemma hex_digit_safe d : d < 16 → always_safe (hex_digit d) = true.
Proof.
  intros Hd. unfold hex_digit, always_safe.
  destruct (N.ltb_spec d 10).
  - assert (H1 : (48 <=? 48 + d) = true) by (apply N.leb_le; lia).
    assert (H2 : (48 + d <=? 57) = true) by (apply N.leb_le; lia).
    rewrite H1, H2. simpl. by rewrite !orb_true_r.
  - assert (H1 : (65 <=? 55 + d) = true) by (apply N.leb_le; lia).
    assert (H2 : (55 + d <=? 90) = true) by (apply N.leb_le; lia).
    by rewrite H1, H2.
Qed.

Lemma quote_byte_chars b :
  b < 256 → Forall is_path_char (quote_byte b) ∧ (length (quote_byte b) ≤ 3)%nat.
Proof.
  intros Hb. unfold quote_byte.
  destruct (always_safe b || (b =? 47)) eqn:E.
  - split; [|simpl; lia]. constructor; [|constructor].
    apply orb_true_iff in E as [E|E]; [by left|].
    right; left. by apply N.eqb_eq.
  - split; [|simpl; lia].
    constructor; [by right; right|].
    constructor; [left; apply hex_digit_safe|].
    { apply N.Div0.div_lt_upper_bound. lia. }
    constructor; [left; apply hex_digit_safe|constructor].
    by apply N.mod_lt.
Qed.

Lemma quote_bytes_path_chars bs :
  Forall (λ b, b < 256) bs →
  Forall is_path_char (quote_bytes bs)
  ∧ (length (quote_bytes bs) ≤ 3 * length bs)%nat.
Proof.
  unfold quote_bytes. induction 1 as [|b bs Hb _ [IH1 IH2]].
  { split; [constructor|simpl; lia]. }
  destruct (quote_byte_chars b Hb) as [H1 H2].
  rewrite fmap_cons. cbn [concat].
  split; [by apply Forall_app|]. rewrite length_app. cbn [length]. lia.
Qed.

(** ** The query of the request URL *)



(** ** Occurrences in the prompt *)

Lemma contains_inside x a b : contains x (a ++ x ++ b) = true.
Proof. apply contains_app_r, contains_prefix. Qed.

(** Only Unicode scalar values can be encoded. *)
Lemma utf8_encode_char_Some_scalar c bs :
  utf8_encode_char c = Some bs → is_scalar c.
Proof.
  unfold utf8_encode_char, is_scalar.
  destruct (N.ltb_spec c 0x80); [intros _; left; lia|].
  destruct (N.ltb_spec c 0x800); [intros _; left; lia|].
  destruct (N.leb_spec 0xD800 c), (N.leb_spec c 0xDFFF); simpl; try done.
  all: destruct (N.ltb_spec c 0x10000); [intros _; lia|].
  all: destruct (N.leb_spec c 0x10FFFF); [intros _; lia|done].
Qed.

Lemma utf8_encode_Some_scalar s bs :
  utf8_encode s = Some bs → Forall is_scalar s.
Proof.
  revert bs. induction s as [|c s IH]; simpl; intros bs; [constructor|].
  destruct (utf8_encode_char c) as [b|] eqn:Hc; [|done]. simpl.
  destruct (utf8_encode s) as [r|] eqn:Hs; [|done]. intros _.
  constructor; [by eapply utf8_encode_char_Some_scalar|by eapply IH].
Qed.

(** ** What a call does to the world *)

Lemma image_url_of_with_image_url d u :
  image_url_of (with_image_url d u) = Some u.
Proof. unfold image_url_of, with_image_url. by rewrite lookup_insert_eq. Qed.

Lemma upload_url_inj u v : upload_url u = upload_url v → u = v.
Proof.
  unfold upload_url. intros H.
  apply app_inv_head, app_inv_head in H. by apply app_inv_tail in H.
Qed.

Lemma upload_url_nonempty u : upload_url u ≠ [].
Proof. done. Qed.

Lemma stored_outcome W d resp st :
  is_image resp = true →
  ∃ o st', stored W d resp st = (o, st')
    ∧ draws st' = draws st ∧ sent st' = sent st
    ∧ uuids st' = S (uuids st)
    ∧ (((o = Return (with_image_url d []) ∨ o = Raise UnicodeEncodeError)
        ∧ files st' = files st
        ∧ is_Some (write_file W (upload_path (os_getcwd W) (uuid_uuid4 W (uuids st)))
                     (content resp)))
       ∨ (o = Return (with_image_url d (upload_url (uuid_uuid4 W (uuids st))))
          ∧ files st' = files st
              ++ [(upload_path (os_getcwd W) (uuid_uuid4 W (uuids st)),
                   content resp)])).
Proof.
  intros _. unfold stored.
  destruct (write_file _ _ _) as [e|] eqn:E.
  - destruct (absorbed_result d e (after_uuid st)) as [-> | ->];
      eexists _, _; (split; [done|]); (split; [done|]); (split; [done|]);
      (split; [done|]); left; eauto.
  - eexists _, _. split; [done|]. split; [done|]. split; [done|].
    split; [done|]. by right.
Qed.

(** The download, case by case: it sends the request, and the retry at
    most; it returns the dictionary with an empty [imageUrl], or raises
    the error of its handler's print, and no file is written; or it
    returns the dictionary with the URL of the one file written, which
    holds the body of the image that answered the last request. *)
Lemma download_outcome W d url st :
  ∃ o st',
    download W (JDict d) url st = (o, st')
    ∧ draws st' = draws st
    ∧ (sent st' = sent st ++ [request_for url]
       ∨ sent st' = sent st ++ [request_for url;
            request_for (replace (py "model=flux") (py "model=turbo") url)])
    ∧ (((o = Return (with_image_url d []) ∨ o = Raise UnicodeEncodeError)
        ∧ files st' = files st
        ∧ (uuids st' = uuids st ∨ uuids st' = S (uuids st)))
       ∨ (∃ req resp,
            last (sent st') = Some req
            ∧ requests_get W (length (sent st') - 1) req = Return resp
            ∧ is_image resp = true
            ∧ o = Return (with_image_url d (upload_url (uuid_uuid4 W (uuids st))))
            ∧ uuids st' = S (uuids st)
            ∧ files st' = files st
                ++ [(upload_path (os_getcwd W) (uuid_uuid4 W (uuids st)),
                     content resp)])).
Proof.
  set (primary := request_for url).
  set (retry := request_for (replace (py "model=flux") (py "model=turbo") url)).
  assert (Habs : ∀ e st1,
            ∃ o, absorbed d e st1 = (o, st1)
                 ∧ (o = Return (with_image_url d []) ∨ o = Raise UnicodeEncodeError)).
  { intros e st1. destruct (absorbed_result d e st1) as [-> | ->]; eauto. }
  destruct (requests_get W (length (sent st)) primary) as [resp|e] eqn:H.
  2:{ erewrite download_transport_error by done. fold primary.
      destruct (Habs e (after_get primary st)) as (o & -> & Ho).
      eexists _, _. split; [done|]. split; [done|]. split; [by left|].
      left. eauto. }
  destruct (is_image resp) eqn:Hi.
  { erewrite download_primary_image by done. fold primary.
    destruct (stored_outcome W d resp (after_get primary st) Hi)
      as (o & st' & -> & Hd & Hs & Hu & Hf).
    exists o, st'. split; [done|]. split; [done|]. split; [by left|].
    destruct Hf as [(Ho & Hf & _)|(-> & Hf)].
    - left. split; [done|]. split; [done|]. by right.
    - right. exists primary, resp. rewrite Hs. simpl.
      rewrite last_snoc, length_app. simpl.
      replace (length (sent st) + 1 - 1)%nat with (length (sent st)) by lia.
      done. }
  destruct (contains (py "model=flux") url) eqn:Hc.
  2:{ erewrite download_no_fallback by done. eexists _, _.
      split; [done|]. split; [done|]. split; [by left|]. left. eauto. }
  erewrite download_retry by done. cbv zeta. fold primary retry.
  assert (Hs : sent (after_get retry (after_get primary st))
               = sent st ++ [primary; retry])
    by (simpl; by rewrite <- app_assoc).
  destruct (requests_get W (S (length (sent st))) retry) as [resp2|e2] eqn:H2.
  2:{ destruct (Habs e2 (after_get retry (after_get primary st))) as (o & -> & Ho).
      eexists _, _. split; [done|]. split; [done|]. split; [by right|].
      left. eauto. }
  destruct (is_image resp2) eqn:Hi2.
  2:{ eexists _, _. split; [done|]. split; [done|]. split; [by right|].
      left. eauto. }
  destruct (stored_outcome W d resp2 (after_get retry (after_get primary st)) Hi2)
    as (o & st' & -> & Hd & Hs' & Hu & Hf).
  exists o, st'. split; [done|]. split; [done|].
  rewrite Hs'. split; [by right|].
  destruct Hf as [(Ho & Hf & _)|(-> & Hf)].
  - left. split; [done|]. split; [done|]. by right.
  - right. exists retry, resp2. rewrite Hs.
    split.
    { change [primary; retry] with ([primary] ++ [retry]).
      rewrite app_assoc. apply last_snoc. }
    rewrite length_app. simpl.
    replace (length (sent st) + 2 - 1)%nat with (S (length (sent st))) by lia.
    done.
Qed.

Lemma image_step_nondict_state W v st :
  (∀ d, v ≠ JDict d) →
  image_step W v st = (Raise TypeError, st)
  ∨ image_step W v st = (Raise TypeError, after_draw st).
Proof.
  intros Hv. unfold image_step, bind, lift, randint.
  destruct v; simpl; try (by left).
  - destruct (contains _ _); [by right|by left].
  - destruct (existsb _ _); [by right|by left].
  - by destruct (Hv d).
Qed.

(** A call, case by case. *)
Lemma generate_by_cases W title category start_time end_time st :
  let out := generate_event_content W title category start_time end_time st in
  (∃ e, out = (Raise e, st) ∨ out = (Raise e, after_draw st))
  ∨ (∃ d, chain_ainvoke W
            (build_prompt (get_format_instructions W)
               title category start_time end_time) = Return (JDict d)
          ∧ d !! py "image_prompt" = None
          ∧ out = (Return (with_image_url (cleaned d) []), st))
  ∨ (∃ d p bs,
       reaches_download W title category start_time end_time d p bs
       ∧ out = download W (JDict (cleaned d))
                 (pollinations_url (quote_bytes bs)
                    (random_randint W (draws st)) (os_getenv W key_name))
                 (after_draw st)).
Proof.
  intros out. unfold out.
  destruct (chain_ainvoke W
    (build_prompt (get_format_instructions W) title category start_time end_time))
    as [v|e] eqn:Hc.
  2:{ left. exists (logged e). left. by apply generate_text_raises. }
  assert ((∃ d, v = JDict d) ∨ (∀ d, v ≠ JDict d)) as [[d ->]|Hv]
    by (destruct v; eauto; by right).
  - rewrite (generate_dict _ _ _ _ _ d st Hc).
    destruct (description_ok d) eqn:Hd.
    2:{ left. exists TypeError. left. unfold description_ok in Hd.
        by destruct (d !! py "description") as [[]|]. }
    assert (Hrun : match d !! py "description" with
                   | None | Some (JStr _) => image_step W (JDict (cleaned d)) st
                   | Some _ => (Raise TypeError, st)
                   end = image_step W (JDict (cleaned d)) st).
    { unfold description_ok in Hd.
      by destruct (d !! py "description") as [[]|]. }
    rewrite Hrun.
    destruct (d !! py "image_prompt") as [x|] eqn:Hp.
    2:{ right; left. exists d. split; [done|]. split; [done|].
        apply image_step_no_prompt. by rewrite cleaned_lookup_ne. }
    assert (Hp' : cleaned d !! py "image_prompt" = Some x)
      by (by rewrite cleaned_lookup_ne).
    destruct (as_str x) as [p|] eqn:Hx.
    2:{ left. exists TypeError. right. by eapply image_step_bad_prompt. }
    destruct x; try done. injection Hx as ->.
    destruct (utf8_encode (spec_styled_prompt p)) as [bs|] eqn:Hq.
    2:{ left. exists UnicodeEncodeError. right.
        by eapply image_step_unencodable. }
    right; right. exists d, p, bs. split; [done|].
    by eapply image_step_download.
  - left. exists TypeError.
    assert (∃ st', generate_event_content W title category start_time end_time st
                   = (Raise TypeError, st')
                   ∧ (st' = st ∨ st' = after_draw st))
      as (st' & -> & [-> | ->]); [|by left|by right].
    rewrite generate_run, Hc.
    destruct (post_process_nondict v st Hv) as [-> | ->]; [|eauto].
    destruct (image_step_nondict_state W v st Hv) as [-> | ->]; eauto.
Qed.

Lemma url_to_backend enc seed key :
  to_image_backend (request_for (pollinations_url enc seed key)).
Proof.
  split; [|done]. unfold pollinations_url. apply is_prefix_app.
Qed.

Lemma retry_url_to_backend bs seed key :
  to_image_backend
    (request_for (replace (py "model=flux") (py "model=turbo")
                    (pollinations_url (quote_bytes bs) seed key))).
Proof.
  split; [|done]. rewrite replace_model_flux_key.
  unfold spec_request_url, spec_base. simpl req_url.
  exact (is_prefix_app (py "https://image.pollinations.ai/prompt/") _).
Qed.

Lemma upload_path_inj cwd u v : upload_path cwd u = upload_path cwd v → u = v.
Proof.
  unfold upload_path. set (dir := path_join cwd (py "uploads")).
  unfold path_join.
  change (is_prefix (py "/") (py "ai_gen_" ++ u ++ py ".png")) with false.
  change (is_prefix (py "/") (py "ai_gen_" ++ v ++ py ".png")) with false.
  cbv iota. intros H.
  assert (H' : py "ai_gen_" ++ u ++ py ".png" = py "ai_gen_" ++ v ++ py ".png").
  { destruct (last dir) as [c|]; [|done].
    destruct (c =? 47); apply app_inv_head in H; [done|].
    by apply app_inv_head in H. }
  apply app_inv_head in H'. by apply app_inv_tail in H'.
Qed.

(** A call, with what it leaves behind: it raises and leaves the
    network and the disk alone; or it raises the error of the print in
    the handler of the download, having sent [reqs] and written no
    file; or it returns the cleaned dictionary with [imageUrl] set,
    having sent [reqs] and stored one image at most. *)
Lemma generate_outcome W title category start_time end_time st :
  let out := generate_event_content W title category start_time end_time st in
  (∃ e, out.1 = Raise e ∧ untouched st out.2
        ∧ (draws out.2 = draws st ∨ draws out.2 = S (draws st)))
  ∨ (∃ reqs,
       out.1 = Raise UnicodeEncodeError
       ∧ ¬ quiet W
       ∧ sent out.2 = sent st ++ reqs
       ∧ (1 ≤ length reqs ≤ 2)%nat
       ∧ Forall to_image_backend reqs
       ∧ draws out.2 = S (draws st)
       ∧ files out.2 = files st
       ∧ (uuids out.2 = uuids st ∨ uuids out.2 = S (uuids st)))
  ∨ (∃ d u reqs,
       chain_ainvoke W
         (build_prompt (get_format_instructions W)
            title category start_time end_time) = Return (JDict d)
       ∧ out.1 = Return (with_image_url (cleaned d) u)
       ∧ sent out.2 = sent st ++ reqs
       ∧ (length reqs ≤ 2)%nat
       ∧ Forall to_image_backend reqs
       ∧ (draws out.2 = draws st ∨ draws out.2 = S (draws st))
       ∧ ((u = [] ∧ files out.2 = files st
           ∧ (uuids out.2 = uuids st ∨ uuids out.2 = S (uuids st)))
          ∨ (∃ req resp,
               last reqs = Some req
               ∧ requests_get W (length (sent out.2) - 1) req = Return resp
               ∧ is_image resp = true
               ∧ u = upload_url (uuid_uuid4 W (uuids st))
               ∧ uuids out.2 = S (uuids st)
               ∧ files out.2 = files st
                   ++ [(upload_path (os_getcwd W) (uuid_uuid4 W (uuids st)),
                        content resp)]))).
Proof.
  intros out.
  destruct (generate_by_cases W title category start_time end_time st)
    as [(e & [H|H])|[(d & Hc & Hp & H)|(d & p & bs & Hr & H)]];
    fold out in H.
  - left. exists e. rewrite H. split; [done|]. split; [done|by left].
  - left. exists e. rewrite H. split; [done|]. split; [done|by right].
  - right; right. exists d, [], []. rewrite H. simpl. rewrite app_nil_r.
    split; [done|]. split; [done|]. split; [done|]. split; [lia|].
    split; [done|]. split; [by left|]. left. split; [done|]. split; [done|].
    by left.
  - set (url := pollinations_url (quote_bytes bs) (random_randint W (draws st))
                  (os_getenv W key_name)) in *.
    destruct (download_outcome W (cleaned d) url (after_draw st))
      as (o & st' & E & Hd & Hs & Hf).
    assert (∃ reqs, sent st' = sent st ++ reqs ∧ (1 ≤ length reqs ≤ 2)%nat
                    ∧ Forall to_image_backend reqs
                    ∧ (∀ req, last (sent st') = Some req → last reqs = Some req))
      as (reqs & Hs' & Hl & Hb & Hlast).
    { destruct Hs as [Hs|Hs]; rewrite Hs; simpl; eexists; (split; [done|]).
      - split; [simpl; lia|]. split.
        + apply Forall_cons_2; [apply url_to_backend|constructor].
        + intros req. by rewrite last_snoc.
      - split; [simpl; lia|]. split.
        + apply Forall_cons_2; [apply url_to_backend|].
          apply Forall_cons_2; [apply retry_url_to_backend|constructor].
        + intros req.
          change [request_for url;
                  request_for (replace (py "model=flux") (py "model=turbo") url)]
            with ([request_for url]
                  ++ [request_for (replace (py "model=flux") (py "model=turbo") url)]).
          by rewrite app_assoc, !last_snoc. }
    destruct Hr as (Hc & _).
    destruct Hf as [([-> | ->] & Hf & Hu)
                   |(req & resp & H1 & H2 & H3 & -> & H5 & H6)].
    + right; right. exists d, [], reqs. rewrite H, E. simpl.
      split; [done|]. split; [done|]. split; [done|]. split; [lia|].
      split; [done|]. split; [right; by rewrite Hd|]. by left.
    + right; left. exists reqs. rewrite H, E. simpl.
      split; [done|]. split.
      { intros Hq.
        destruct (download_returns W (cleaned d) url (after_draw st) Hq)
          as (u & st'' & E'). congruence. }
      split; [done|]. split; [done|]. split; [done|]. by rewrite Hd.
    + right; right. exists d, (upload_url (uuid_uuid4 W (uuids st))), reqs.
      rewrite H, E. simpl.
      split; [done|]. split; [done|]. split; [done|]. split; [lia|].
      split; [done|]. split; [right; by rewrite Hd|]. right.
      exists req, resp. split; [by apply Hlast|done].
Qed.


(** ** Dates and their renderings *)

Lemma py_inj s t : py s = py t → s = t.
Proof.
  unfold py. intros H.
  rewrite <- (string_of_list_ascii_of_string s),
          <- (string_of_list_ascii_of_string t).
  f_equal. revert H.
  generalize (list_ascii_of_string s) (list_ascii_of_string t).
  induction l as [|a l IH]; intros [|b k]; simpl; try done.
  intros [= Hab Hl]. f_equal; [|by apply IH].
  by rewrite <- (ascii_N_embedding a), <- (ascii_N_embedding b), Hab.
Qed.

Lemma to_int_nonnil z : Z.to_int z ≠ Pos Nil ∧ Z.to_int z ≠ Neg Nil.
Proof.
  destruct z as [|p|p]; simpl; split; try done.
  all: intros [= H]; by apply (DecimalPos.Unsigned.to_uint_nonnil p).
Qed.

(** [str] of an [int] tells the integers apart. *)
Lemma str_of_int_inj a b : str_of_int a = str_of_int b → a = b.
Proof.
  unfold str_of_int. intros H%py_inj.
  rewrite <- (DecimalZ.of_to a), <- (DecimalZ.of_to b). f_equal.
  destruct (to_int_nonnil a) as [Ha1 Ha2], (to_int_nonnil b) as [Hb1 Hb2].
  pose proof (NilZero.isi _ Ha1 Ha2) as Ea.
  pose proof (NilZero.isi _ Hb1 Hb2) as Eb.
  rewrite H in Ea. congruence.
Qed.

Lemma string_of_uint_is_digit d :
  Forall is_digit (py (NilEmpty.string_of_uint d)).
Proof.
  induction d; simpl; constructor; try done; unfold is_digit, py; simpl; lia.
Qed.

Lemma str_of_int_nonneg n : (0 ≤ n)%Z → Forall is_digit (str_of_int n).
Proof.
  intros Hn. unfold str_of_int.
  destruct n as [|p|p]; [| |lia]; simpl Z.to_int.
  - repeat constructor; unfold is_digit; simpl; lia.
  - unfold NilZero.string_of_int, NilZero.string_of_uint.
    destruct (Pos.to_uint p) eqn:E; try apply string_of_uint_is_digit.
    by apply DecimalPos.Unsigned.to_uint_nonnil in E.
Qed.

(** Two texts that begin with characters of one kind, followed by a
    character of another kind, agree piece by piece. *)
Lemma split_at_separator (P : N → Prop) a b c r1 r2 :
  Forall P a → Forall P b → ¬ P c →
  a ++ c :: r1 = b ++ c :: r2 → a = b ∧ r1 = r2.
Proof.
  intros Ha. revert b. induction Ha as [|x a Hx Ha IH]; intros b Hb Hc H.
  - destruct Hb as [|y b Hy Hb]; simpl in H; [by injection H|].
    injection H as -> _. done.
  - destruct Hb as [|y b Hy Hb]; simpl in H.
    + injection H as -> _. done.
    + injection H as -> H. destruct (IH b Hb Hc H) as [-> ->]. done.
Qed.

Lemma zero_pad2_table :
  forallb (λ n, bool_decide
                  (zero_pad2 n = [48 + Z.to_N (n / 10); 48 + Z.to_N (n mod 10)]))
    (Z.of_nat <$> seq 0 100) = true.
Proof. vm_compute. reflexivity. Qed.

Lemma zero_pad2_two_digits n :
  (0 ≤ n < 100)%Z →
  zero_pad2 n = [48 + Z.to_N (n / 10); 48 + Z.to_N (n mod 10)].
Proof.
  intros Hn. pose proof zero_pad2_table as Ht.
  rewrite forallb_forall in Ht. specialize (Ht n).
  apply bool_decide_eq_true in Ht; [done|].
  apply in_map_iff. exists (Z.to_nat n). split; [lia|]. apply in_seq. lia.
Qed.

Lemma two_digits_inj a b :
  (0 ≤ a < 100)%Z → (0 ≤ b < 100)%Z →
  48 + Z.to_N (a / 10) = 48 + Z.to_N (b / 10) →
  48 + Z.to_N (a mod 10) = 48 + Z.to_N (b mod 10) →
  a = b.
Proof.
  intros Ha Hb H1 H2.
  pose proof (Z.div_mod a 10 ltac:(lia)).
  pose proof (Z.div_mod b 10 ltac:(lia)).
  pose proof (Z.div_pos a 10 ltac:(lia) ltac:(lia)).
  pose proof (Z.div_pos b 10 ltac:(lia) ltac:(lia)).
  pose proof (Z.mod_pos_bound a 10 ltac:(lia)).
  pose proof (Z.mod_pos_bound b 10 ltac:(lia)).
  lia.
Qed.

Lemma strftime_date_line d :
  strftime d date_line_format
  = month_name (month d) ++ 32 :: zero_pad2 (day d) ++ py ", "
    ++ str_of_int (year d) ++ 32 :: py "@ " ++ zero_pad2 (twelve_hour (hour d))
    ++ 58 :: zero_pad2 (minute d) ++ 32 :: meridiem (hour d).
Proof.
  rewrite <- (app_nil_r (meridiem (hour d))). reflexivity.
Qed.

Lemma strftime_valid_line d :
  strftime d valid_line_format
  = str_of_int (year d) ++ 45 :: zero_pad2 (month d) ++ 45 :: zero_pad2 (day d)
    ++ 32 :: zero_pad2 (hour d) ++ 58 :: zero_pad2 (minute d)
    ++ 32 :: meridiem (hour d).
Proof.
  rewrite <- (app_nil_r (meridiem (hour d))). reflexivity.
Qed.

Lemma month_in_range m :
  (1 ≤ m ≤ 12)%Z →
  m = 1%Z ∨ m = 2%Z ∨ m = 3%Z ∨ m = 4%Z ∨ m = 5%Z ∨ m = 6%Z ∨ m = 7%Z
  ∨ m = 8%Z ∨ m = 9%Z ∨ m = 10%Z ∨ m = 11%Z ∨ m = 12%Z.
Proof. lia. Qed.

(** The month names are told apart by what they are followed by. *)
Lemma month_name_inj m1 m2 r1 r2 :
  (1 ≤ m1 ≤ 12)%Z → (1 ≤ m2 ≤ 12)%Z →
  month_name m1 ++ 32 :: r1 = month_name m2 ++ 32 :: r2 → m1 = m2 ∧ r1 = r2.
Proof.
  intros H1 H2.
  apply month_in_range in H1, H2.
  repeat (destruct H1 as [->|H1]); try subst m1;
    repeat (destruct H2 as [->|H2]); try subst m2; intros H;
    first [ split; [reflexivity|]; apply app_inv_head in H; by injection H
          | exfalso; vm_compute in H; discriminate H ].
Qed.

Lemma twelve_hour_range h : (0 ≤ h ≤ 23)%Z → (0 ≤ twelve_hour h < 100)%Z.
Proof.
  intros Hh. unfold twelve_hour.
  pose proof (Z.mod_pos_bound h 12 ltac:(lia)).
  destruct (Z.eqb_spec (h mod 12) 0); lia.
Qed.

(** The twelve-hour clock with its meridiem tells the hours apart. *)
Lemma twelve_hour_inj h1 h2 :
  (0 ≤ h1 ≤ 23)%Z → (0 ≤ h2 ≤ 23)%Z →
  twelve_hour h1 = twelve_hour h2 → meridiem h1 = meridiem h2 → h1 = h2.
Proof.
  intros H1 H2. unfold twelve_hour, meridiem.
  pose proof (Z.div_mod h1 12 ltac:(lia)).
  pose proof (Z.div_mod h2 12 ltac:(lia)).
  pose proof (Z.mod_pos_bound h1 12 ltac:(lia)).
  pose proof (Z.mod_pos_bound h2 12 ltac:(lia)).
  destruct (Z.eqb_spec (h1 mod 12) 0), (Z.eqb_spec (h2 mod 12) 0),
    (Z.ltb_spec h1 12), (Z.ltb_spec h2 12); try done; intros; lia.
Qed.

Lemma date_line_inj d1 d2 :
  valid_datetime d1 → valid_datetime d2 →
  strftime d1 date_line_format = strftime d2 date_line_format →
  same_minute d1 d2.
Proof.
  intros (Hy1 & Hm1 & Hd1 & Hh1 & Hi1) (Hy2 & Hm2 & Hd2 & Hh2 & Hi2).
  rewrite !strftime_date_line. intros H.
  apply month_name_inj in H as [Hm H]; [|done|done].
  pose proof (twelve_hour_range _ Hh1). pose proof (twelve_hour_range _ Hh2).
  rewrite !zero_pad2_two_digits in H by lia.
  injection H as Ha Hb H.
  apply (split_at_separator is_digit) in H as [Hy H];
    [|apply str_of_int_nonneg; lia|apply str_of_int_nonneg; lia
     |unfold is_digit; lia].
  injection H as Hc Hd He Hf Hg.
  assert (Hday : day d1 = day d2)
    by (apply two_digits_inj; [lia|lia|done|done]).
  assert (Hmin : minute d1 = minute d2)
    by (apply two_digits_inj; [lia|lia|done|done]).
  assert (Hhour : twelve_hour (hour d1) = twelve_hour (hour d2))
    by (apply two_digits_inj; [lia|lia|done|done]).
  repeat split; try done.
  - by apply str_of_int_inj.
  - by apply twelve_hour_inj.
Qed.

Lemma valid_line_inj d1 d2 :
  valid_datetime d1 → valid_datetime d2 →
  strftime d1 valid_line_format = strftime d2 valid_line_format →
  same_minute d1 d2.
Proof.
  intros (Hy1 & Hm1 & Hd1 & Hh1 & Hi1) (Hy2 & Hm2 & Hd2 & Hh2 & Hi2).
  rewrite !strftime_valid_line. intros H.
  apply (split_at_separator is_digit) in H as [Hy H];
    [|apply str_of_int_nonneg; lia|apply str_of_int_nonneg; lia
     |unfold is_digit; lia].
  rewrite !zero_pad2_two_digits in H by lia.
  injection H as Ha Hb Hc Hd He Hf Hg Hh _.
  repeat split.
  - by apply str_of_int_inj.
  - apply two_digits_inj; [lia|lia|done|done].
  - apply two_digits_inj; [lia|lia|done|done].
  - apply two_digits_inj; [lia|lia|done|done].
  - apply two_digits_inj; [lia|lia|done|done].
Qed.

(** ** Paths *)

Lemma str_split_nonempty s : str_split s ≠ [].
Proof.
  destruct s as [|c s]; simpl; [done|].
  destruct (c =? 47); [done|]. by destruct (str_split s).
Qed.

Lemma str_split_app a b :
  str_split (a ++ 47 :: b) = str_split a ++ str_split b.
Proof.
  induction a as [|c a IH]; [done|]. simpl. rewrite IH.
  destruct (c =? 47); [done|].
  pose proof (str_split_nonempty a). by destruct (str_split a).
Qed.

Lemma str_split_no_slash s : Forall (λ c, c ≠ 47) s → str_split s = [s].
Proof.
  induction 1 as [|c s Hc _ IH]; [done|]. simpl. rewrite IH.
  by apply N.eqb_neq in Hc as ->.
Qed.

Lemma str_split_comps s : Forall (Forall (λ c, c ≠ 47)) (str_split s).
Proof.
  induction s as [|c s IH]; simpl; [by repeat constructor|].
  destruct (N.eqb_spec c 47); [by constructor|].
  destruct (str_split s) as [|comp comps]; [by repeat constructor|].
  apply Forall_cons in IH as [? ?]. constructor; [by constructor|done].
Qed.

Lemma normpath_step_keep slashes comps comp :
  comp ≠ [] → comp ≠ py "." → comp ≠ py ".." →
  normpath_step slashes comps comp = comps ++ [comp].
Proof.
  intros H1 H2 H3. unfold normpath_step.
  rewrite bool_decide_eq_false_2 by (by intros [?|?]).
  by rewrite (bool_decide_eq_true_2 (comp ≠ py "..")).
Qed.

Lemma normpath_step_empty slashes comps : normpath_step slashes comps [] = comps.
Proof. unfold normpath_step. by rewrite bool_decide_eq_true_2 by (by left). Qed.

Lemma removelast_Forall {A} (P : A → Prop) l : Forall P l → Forall P (removelast l).
Proof.
  induction 1 as [|x l Hx Hl IH]; [done|]. simpl.
  destruct l; [constructor|]. by constructor.
Qed.

Lemma normpath_step_plain slashes comps comp :
  Forall plain comps → Forall (λ c, c ≠ 47) comp →
  Forall plain (normpath_step slashes comps comp).
Proof.
  intros Hk Hc. unfold normpath_step.
  destruct (bool_decide (comp = [] ∨ comp = py ".")) eqn:E; [done|].
  apply bool_decide_eq_false in E.
  destruct (_ || _).
  - apply Forall_app. split; [done|]. constructor; [|done].
    split; [|done]. intros ->. apply E. by left.
  - by apply removelast_Forall.
Qed.

Lemma normpath_comps_plain slashes comps acc :
  Forall plain acc → Forall (Forall (λ c, c ≠ 47)) comps →
  Forall plain (foldl (normpath_step slashes) acc comps).
Proof.
  intros Ha Hc. revert acc Ha.
  induction Hc as [|comp comps Hcomp _ IH]; intros acc Ha; [done|].
  simpl. apply IH. by apply normpath_step_plain.
Qed.

Lemma str_join_snoc comps comp :
  str_join (comps ++ [comp])
  = match comps with [] => comp | _ => str_join comps ++ 47 :: comp end.
Proof.
  induction comps as [|c comps IH]; [done|].
  destruct comps as [|c' comps]; [done|].
  change (str_join ((c :: c' :: comps) ++ [comp]))
    with (c ++ 47 :: str_join ((c' :: comps) ++ [comp])).
  rewrite IH. change (str_join (c :: c' :: comps))
    with (c ++ 47 :: str_join (c' :: comps)).
  by rewrite <- app_assoc.
Qed.

Lemma str_join_head comps :
  comps ≠ [] → Forall plain comps →
  ∃ c rest, str_join comps = c :: rest ∧ c ≠ 47.
Proof.
  intros Hne Hp. destruct Hp as [|comp comps [Hc Hs] Hp]; [done|].
  destruct comp as [|c comp]; [done|]. apply Forall_cons in Hs as [? _].
  destruct comps; simpl; eauto.
Qed.

Lemma str_join_last comps :
  comps ≠ [] → Forall plain comps →
  ∃ c, last (str_join comps) = Some c ∧ c ≠ 47.
Proof.
  intros Hne Hp. induction Hp as [|comp comps [Hc Hs] Hp IH]; [done|].
  destruct comps as [|c' comps].
  - simpl. destruct comp as [|x comp] using rev_ind; [done|].
    rewrite last_snoc. apply Forall_app in Hs as [_ Hx].
    apply Forall_cons in Hx as [? _]. eauto.
  - destruct (IH ltac:(done)) as (c & Hl & Hc').
    exists c. split; [|done].
    change (str_join (comp :: c' :: comps))
      with (comp ++ 47 :: str_join (c' :: comps)).
    rewrite last_app, last_cons, Hl. done.
Qed.

Lemma initial_slashes_replicate n c rest :
  n = 1%nat ∨ n = 2%nat → c ≠ 47 →
  initial_slashes (replicate n 47 ++ c :: rest) = n.
Proof.
  intros Hn Hc. assert (Hc' : (47 =? c) = false) by (apply N.eqb_neq; congruence).
  destruct Hn as [-> | ->]; unfold initial_slashes;
    change (py "/") with [47]; change (py "//") with [47; 47];
    change (py "///") with [47; 47; 47];
    cbn [replicate app is_prefix]; rewrite ?N.eqb_refl, ?Hc'; reflexivity.
Qed.

Lemma initial_slashes_absolute path :
  is_prefix (py "/") path = true →
  initial_slashes path = 1%nat ∨ initial_slashes path = 2%nat.
Proof.
  unfold initial_slashes. intros ->. destruct (_ && _); [by right|by left].
Qed.

(** A normal absolute path stays normal when a plain component, other
    than [.] and [..], is joined to it. *)
Lemma normpath_extend cwd comp :
  is_prefix (py "/") cwd = true → normpath cwd = cwd →
  plain comp → comp ≠ py "." → comp ≠ py ".." →
  normpath (path_join cwd comp) = path_join cwd comp
  ∧ is_prefix (py "/") (path_join cwd comp) = true.
Proof.
  intros Habs Hn [Hne Hs] Hdot Hdd.
  destruct cwd as [|c0 cwd0] eqn:Ecwd; [done|]. rewrite <- Ecwd in *.
  assert (Hcwd : cwd ≠ []) by (by rewrite Ecwd).
  set (s := initial_slashes cwd) in *.
  set (K := foldl (normpath_step s) [] (str_split cwd)) in *.
  assert (Hs12 : s = 1%nat ∨ s = 2%nat) by (by apply initial_slashes_absolute).
  assert (HK : Forall plain K)
    by (apply normpath_comps_plain; [constructor|apply str_split_comps]).
  assert (Hform : cwd = replicate s 47 ++ str_join K).
  { revert Hn. unfold normpath. rewrite bool_decide_eq_false_2 by done.
    cbv zeta. fold s K. destruct (bool_decide _) eqn:E; [|done].
    apply bool_decide_eq_true in E. destruct Hs12 as [-> | ->]; done. }
  destruct comp as [|k0 comp0] eqn:Ecomp; [done|]. rewrite <- Ecomp in *.
  assert (Hk0 : k0 ≠ 47) by (rewrite Ecomp in Hs; by apply Forall_cons in Hs as [? _]).
  assert (Hrep : ∀ n acc, foldl (normpath_step s) acc (replicate n []) = acc).
  { induction n as [|n IH]; intros acc; [done|].
    simpl. by rewrite normpath_step_empty. }
  assert (Hjoin : path_join cwd comp = replicate s 47 ++ str_join (K ++ [comp])
            ∧ foldl (normpath_step s) []
                (str_split (replicate s 47 ++ str_join (K ++ [comp])))
              = K ++ [comp]).
  { unfold path_join.
    assert (Hrel : is_prefix (py "/") comp = false)
      by (rewrite Ecomp; apply (is_prefix_head_ne 47 [] k0 comp0); congruence).
    rewrite Hrel, str_join_snoc.
    destruct (decide (K = [])) as [HK0|HK0].
    - rewrite HK0 in *. simpl in Hform. rewrite app_nil_r in Hform.
      assert (Hsp : str_split (replicate s 47 ++ comp) = replicate s [] ++ [comp]).
      { destruct Hs12 as [E|E]; rewrite E; simpl;
          by rewrite (str_split_no_slash comp Hs). }
      rewrite Hsp, foldl_app, Hrep. simpl.
      split; [|by apply normpath_step_keep].
      rewrite Hform at 1. destruct Hs12 as [E|E]; rewrite E; simpl;
        by rewrite Hform, E.
    - destruct (str_join_last K HK0 HK) as (c & Hl & Hc).
      assert (Hlast : last cwd = Some c).
      { rewrite Hform, last_app, Hl. done. }
      rewrite Hlast. apply N.eqb_neq in Hc. rewrite Hc.
      assert (HP : cwd ++ py "/" ++ comp
                   = replicate s 47 ++ str_join K ++ 47 :: comp).
      { rewrite Hform at 1. by rewrite <- app_assoc. }
      destruct K as [|k K'] eqn:EK; [done|]. rewrite <- EK in *.
      split; [exact HP|].
      rewrite <- HP. change (cwd ++ py "/" ++ comp) with (cwd ++ 47 :: comp).
      rewrite str_split_app, (str_split_no_slash comp Hs), foldl_app.
      simpl. fold K. by apply normpath_step_keep. }
  destruct Hjoin as (HP & Hfold). rewrite HP.
  assert (Hhead : ∃ c rest, str_join (K ++ [comp]) = c :: rest ∧ c ≠ 47).
  { apply str_join_head; [by destruct K|].
    apply Forall_app. split; [done|]. by repeat constructor. }
  destruct Hhead as (c & rest & Eh & Hc).
  assert (Hinit : initial_slashes (replicate s 47 ++ str_join (K ++ [comp])) = s).
  { rewrite Eh. by apply initial_slashes_replicate. }
  split.
  - unfold normpath.
    rewrite bool_decide_eq_false_2
      by (rewrite Eh; destruct Hs12 as [E|E]; by rewrite E).
    cbv zeta. rewrite Hinit, Hfold.
    by rewrite bool_decide_eq_false_2
      by (rewrite Eh; destruct Hs12 as [E|E]; by rewrite E).
  - destruct Hs12 as [E|E]; by rewrite E.
Qed.

Lemma ticket_name_plain id :
  Forall (λ c, c ≠ 47) id →
  let f := py "ticket_" ++ id ++ py ".pdf" in
  plain f ∧ f ≠ py "." ∧ f ≠ py "..".
Proof.
  intros Hs f. split; [|done]. split; [done|].
  unfold f. rewrite !Forall_app. split; [|split]; [|done|]; literal_chars.
Qed.

Lemma path_join_nested cwd a b :
  a ≠ [] → is_prefix (py "/") a = false → is_prefix (py "/") b = false →
  (∃ c, last a = Some c ∧ c ≠ 47) →
  path_join cwd (a ++ py "/" ++ b) = path_join (path_join cwd a) b.
Proof.
  intros Ha Hra Hrb (c & Hl & Hc%N.eqb_neq). unfold path_join.
  rewrite Hra, Hrb.
  assert (Hrel : is_prefix (py "/") (a ++ py "/" ++ b) = false)
    by (destruct a; done).
  rewrite Hrel.
  destruct (last cwd) as [x|].
  - destruct (x =? 47); rewrite !last_app, Hl, Hc; by rewrite <- !app_assoc.
  - by rewrite Hl, Hc.
Qed.

Lemma abspath_ticket cwd id :
  is_prefix (py "/") cwd = true → normpath cwd = cwd →
  Forall (λ c, c ≠ 47) id →
  abspath cwd (path_join TICKET_DIR (py "ticket_" ++ id ++ py ".pdf"))
  = ticket_path_of cwd id.
Proof.
  intros Habs Hn Hs.
  destruct (ticket_name_plain id Hs) as (Hp & Hd & Hdd).
  assert (Hj : path_join TICKET_DIR (py "ticket_" ++ id ++ py ".pdf")
               = py "tickets" ++ py "/" ++ (py "ticket_" ++ id ++ py ".pdf"))
    by reflexivity.
  rewrite Hj. unfold abspath.
  change (is_prefix (py "/") (py "tickets" ++ py "/" ++ py "ticket_" ++ id ++ py ".pdf"))
    with false. cbv iota.
  rewrite path_join_nested; [|done|done|done|by exists 115].
  destruct (normpath_extend cwd (py "tickets") Habs Hn) as [Hn1 Habs1];
    [split; [done|literal_chars]|done|done|].
  by destruct (normpath_extend _ _ Habs1 Hn1 Hp Hd Hdd) as [Hn2 _].
Qed.

Lemma ticket_path_of_inj cwd a b :
  ticket_path_of cwd a = ticket_path_of cwd b → a = b.
Proof.
  unfold ticket_path_of. set (dir := path_join cwd (py "tickets")).
  unfold path_join.
  change (is_prefix (py "/") (py "ticket_" ++ a ++ py ".pdf")) with false.
  change (is_prefix (py "/") (py "ticket_" ++ b ++ py ".pdf")) with false.
  cbv iota. intros H.
  assert (H' : py "ticket_" ++ a ++ py ".pdf" = py "ticket_" ++ b ++ py ".pdf").
  { destruct (last dir) as [c|]; [|done].
    destruct (c =? 47); apply app_inv_head in H; [done|].
    by apply app_inv_head in H. }
  apply app_inv_head in H'. by apply app_inv_tail in H'.
Qed.

(** ** The directory of a path *)


(** ** The steps of the ticket service *)

Section TicketFacts.
Context (E : ticket_env).

Lemma bind_unit {A B} (a : A) (k : A → TM B) st : bind_T (unit_T a) k st = k a st.
Proof. reflexivity. Qed.

Lemma bind_exists {B} path (k : bool → TM B) st :
  bind_T (os_path_exists path) k st = k (bool_decide (path ∈ paths st)) st.
Proof. reflexivity. Qed.

Lemma bind_makedirs {B} path (k : unit → TM B) st :
  bind_T (makedirs E path) k st =
  match os_makedirs E path with
  | Some e => (Raise e, st)
  | None => k tt {| paths := {[path]} ∪ paths st; made := made st ++ [path];
                    written := written st; unfinished := unfinished st |}
  end.
Proof.
  unfold bind_T, makedirs, attempt. by destruct (os_makedirs E path).
Qed.

Lemma bind_call {B} c op (k : canvas → TM B) st :
  bind_T (call E c op) k st =
  match canvas_call E op with
  | Some e => (Raise e, st)
  | None => k {| filename := filename c; pagesize := pagesize c;
                 page := page c ++ [op] |} st
  end.
Proof.
  unfold bind_T, call, attempt, unit_T. by destruct (canvas_call E op).
Qed.

Lemma generate_qr_run data name st :
  generate_qr E data name st =
  let path := TICKET_DIR ++ py "/" ++ name in
  match qr_make E data with
  | Some e => (Raise e, st)
  | None =>
      if bool_decide (dirname path ∈ paths st) then
        match img_save E path with
        | Some e =>
            (Raise e,
             {| paths := paths st; made := made st; written := written st;
                unfinished := unfinished st ++ [path] |})
        | None =>
            (Return path,
             {| paths := {[path]} ∪ paths st; made := made st;
                written := written st
                  ++ [(path, QrImage 1 true 10 5 (py "black") (py "white") data)];
                unfinished := unfinished st |})
        end
      else (Raise (file_not_found path), st)
  end.
Proof.
  unfold generate_qr, save_image, bind_T, attempt, os_path_exists, write,
    fail_write, unit_T. cbv zeta.
  destruct (qr_make E data); [done|].
  destruct (bool_decide _); [|done]. by destruct (img_save E _).
Qed.

Lemma bind_generate_qr {B} data name (k : pystr → TM B) st :
  bind_T (generate_qr E data name) k st =
  let path := TICKET_DIR ++ py "/" ++ name in
  match qr_make E data with
  | Some e => (Raise e, st)
  | None =>
      if bool_decide (dirname path ∈ paths st) then
        match img_save E path with
        | Some e =>
            (Raise e,
             {| paths := paths st; made := made st; written := written st;
                unfinished := unfinished st ++ [path] |})
        | None =>
            k path
              {| paths := {[path]} ∪ paths st; made := made st;
                 written := written st
                   ++ [(path, QrImage 1 true 10 5 (py "black") (py "white") data)];
                 unfinished := unfinished st |}
        end
      else (Raise (file_not_found path), st)
  end.
Proof.
  unfold bind_T. rewrite generate_qr_run. cbv zeta.
  destruct (qr_make E data); [done|].
  destruct (bool_decide _); [|done]. by destruct (img_save E _).
Qed.

Lemma bind_save_canvas {B} c (k : unit → TM B) st :
  bind_T (save_canvas E c) k st =
  match canvas_save E (filename c) with
  | Some e =>
      (Raise e,
       {| paths := paths st; made := made st; written := written st;
          unfinished := unfinished st ++ [filename c] |})
  | None => k tt {| paths := {[filename c]} ∪ paths st; made := made st;
                    written := written st
                      ++ [(filename c, PdfFile (pagesize c) (page c))];
                    unfinished := unfinished st |}
  end.
Proof.
  unfold bind_T, save_canvas, fail_write, write.
  by destruct (canvas_save E (filename c)).
Qed.

(** A call, with what it leaves behind. *)
Lemma generate_ticket_pdf_outcome registration_id event_title user_name
    user_email event_date event_location st :
  let out := generate_ticket_pdf E registration_id event_title user_name
               user_email event_date event_location st in
  let qr := (qr_path_of registration_id,
             qr_image registration_id event_title user_email event_date) in
  let p := abspath (getcwd E)
             (path_join TICKET_DIR (py "ticket_" ++ registration_id ++ py ".pdf")) in
  ((∃ e, out.1 = Raise e
         ∧ (written out.2 = written st ∨ written out.2 = written st ++ [qr]))
   ∨ (∃ page, out.1 = Return p
        ∧ written out.2 = written st ++ [qr; (p, PdfFile letter page)]
        ∧ texts page
          = [take 40 event_title; py "Powered by Infinite BZ"; py "ADMIT ONE";
             py "Attendee: " ++ user_name;
             py "Date: " ++ strftime event_date date_line_format;
             py "Location: " ++ event_location;
             py "Ticket ID: " ++ registration_id;
             py "Please show this ticket at the entrance. valid for one entry."]
        ∧ images page = [qr_path_of registration_id]
        ∧ TICKET_DIR ∈ paths out.2
        ∧ ((TICKET_DIR ∉ paths st) → made out.2 = made st ++ [TICKET_DIR])))
  ∧ (made out.2 = made st
     ∨ ((TICKET_DIR ∉ paths st) ∧ made out.2 = made st ++ [TICKET_DIR])).
Proof.
  intros out qr p.
  set (Φ := λ o : outcome pystr * ticket_state,
    ((∃ e, o.1 = Raise e
           ∧ (written o.2 = written st ∨ written o.2 = written st ++ [qr]))
     ∨ (∃ page, o.1 = Return p
          ∧ written o.2 = written st ++ [qr; (p, PdfFile letter page)]
          ∧ texts page
            = [take 40 event_title; py "Powered by Infinite BZ"; py "ADMIT ONE";
               py "Attendee: " ++ user_name;
               py "Date: " ++ strftime event_date date_line_format;
               py "Location: " ++ event_location;
               py "Ticket ID: " ++ registration_id;
               py "Please show this ticket at the entrance. valid for one entry."]
          ∧ images page = [qr_path_of registration_id]
          ∧ TICKET_DIR ∈ paths o.2
          ∧ ((TICKET_DIR ∉ paths st) → made o.2 = made st ++ [TICKET_DIR])))
    ∧ (made o.2 = made st
       ∨ ((TICKET_DIR ∉ paths st) ∧ made o.2 = made st ++ [TICKET_DIR]))).
  change (Φ out).
  assert (Hraise : ∀ e st',
            (written st' = written st ∨ written st' = written st ++ [qr]) →
            (made st' = made st
             ∨ ((TICKET_DIR ∉ paths st) ∧ made st' = made st ++ [TICKET_DIR])) →
            Φ (Raise e, st')).
  { intros e st' Hw Hm. split; [left; by exists e|done]. }
  unfold out, generate_ticket_pdf. unfold letter. cbv beta iota zeta.
  rewrite bind_exists.
  destruct (bool_decide (TICKET_DIR ∈ paths st)) eqn:Hex.
  - apply bool_decide_eq_true in Hex. rewrite bind_unit.
    repeat (rewrite bind_call; cbn [filename pagesize page app];
            destruct (canvas_call E _);
            [apply Hraise; [by left|by left]|]).
    rewrite bind_generate_qr. cbv zeta.
    destruct (qr_make E _); [apply Hraise; [by left|by left]|].
    destruct (bool_decide _); [|apply Hraise; [by left|by left]].
    destruct (img_save E _); [apply Hraise; [by left|by left]|].
    repeat (rewrite bind_call; cbn [filename pagesize page app];
            destruct (canvas_call E _);
            [apply Hraise; [by right|by left]|]).
    rewrite bind_save_canvas. cbn [filename pagesize page].
    destruct (canvas_save E _); [apply Hraise; [by right|by left]|].
    split; [right|by left]. eexists. split; [reflexivity|].
    split; [simpl; by rewrite <- app_assoc|].
    split; [reflexivity|]. split; [reflexivity|].
    split; [simpl; set_solver|done].
  - apply bool_decide_eq_false in Hex. rewrite bind_makedirs.
    destruct (os_makedirs E _); [apply Hraise; by left|].
    repeat (rewrite bind_call; cbn [filename pagesize page app];
            destruct (canvas_call E _);
            [apply Hraise; [by left|by right]|]).
    rewrite bind_generate_qr. cbv zeta.
    destruct (qr_make E _); [apply Hraise; [by left|by right]|].
    destruct (bool_decide _); [|apply Hraise; [by left|by right]].
    destruct (img_save E _); [apply Hraise; [by left|by right]|].
    repeat (rewrite bind_call; cbn [filename pagesize page app];
            destruct (canvas_call E _);
            [apply Hraise; [by right|by right]|]).
    rewrite bind_save_canvas. cbn [filename pagesize page].
    destruct (canvas_save E _); [apply Hraise; [by right|by right]|].
    split; [right|by right]. eexists. split; [reflexivity|].
    split; [simpl; by rewrite <- app_assoc|].
    split; [reflexivity|]. split; [reflexivity|].
    split; [simpl; set_solver|done].
Qed.

Lemma generate_ticket_pdf_returns registration_id event_title user_name
    user_email event_date event_location st p :
  (generate_ticket_pdf E registration_id event_title user_name user_email
     event_date event_location st).1 = Return p →
  p = abspath (getcwd E)
        (path_join TICKET_DIR (py "ticket_" ++ registration_id ++ py ".pdf")).
Proof.
  intros Hout.
  destruct (generate_ticket_pdf_outcome registration_id event_title user_name
              user_email event_date event_location st)
    as [[(e & He & _)|(page & Hp & _)] _]; rewrite Hout in *; [done|].
  by injection Hp.
Qed.
End TicketFacts.

(** * Further properties of the code *)

(** ** [_clean_description] *)

(** X1.  [_clean_description] only deletes characters: its result is a
    subsequence of the text, so it is never longer than the text and
    holds no character that the text does not hold. *)
Theorem clean_description_only_deletes text :
  _clean_description text `sublist_of` text
  ∧ (length (_clean_description text) ≤ length text)%nat
  ∧ ∀ c, c ∈ _clean_description text → c ∈ text.
Proof.
  assert (H : _clean_description text `sublist_of` text).
  { unfold _clean_description, re_sub_headers.
    etrans; [apply strip_sublist | apply re_sub_from_sublist]. }
  split; [done|]. split; [by apply sublist_length|].
  intros c Hc. eapply sublist_submseteq, submseteq_Permutation in H as [k Hk].
  rewrite Hk. apply elem_of_app. by left.
Qed.

(** X2.  The substitution leaves a text as it is exactly when no line
    of the text begins with a header; such a text, and in particular
    every text without a [#], is only trimmed. *)
Theorem clean_description_without_headers :
  (∀ text, re_sub_headers text = text ↔ no_header true text = true)
  ∧ (∀ text, no_header true text = true →
             _clean_description text = strip text)
  ∧ (∀ text, Forall (λ c, c ≠ chr_hash) text →
             _clean_description text = strip text).
Proof.
  assert (H1 : ∀ text, no_header true text = true →
                       _clean_description text = strip text).
  { intros text H. unfold _clean_description, re_sub_headers.
    by rewrite re_sub_from_fixed. }
  split; [|split; [done|]].
  - intros text. split; [|apply re_sub_from_fixed].
    intros E. destruct (no_header true text) eqn:H; [done|].
    apply re_sub_from_shortens in H. unfold re_sub_headers in E.
    rewrite E in H. lia.
  - intros text H. by apply H1, no_header_no_hash.
Qed.

Lemma clean_description_without_headers_witness :
  no_header true (py "  Doors open at nine.
Bring a friend.  ") = true
  ∧ _clean_description (py "  Doors open at nine.
Bring a friend.  ") = strip (py "  Doors open at nine.
Bring a friend.  ").
Proof.
  assert (H : no_header true (py "  Doors open at nine.
Bring a friend.  ") = true) by (vm_compute; reflexivity).
  split; [exact H|].
  exact (proj1 (proj2 clean_description_without_headers) _ H).
Defined.

(** ** The prompt and the request URL *)

(** X3.  The prompt sent to the text model holds the title, the
    category, both times and the format instructions verbatim. *)
Theorem prompt_holds_the_event_details fmt title category start_time end_time :
  let prompt := build_prompt fmt title category start_time end_time in
  contains title prompt = true
  ∧ contains category prompt = true
  ∧ contains start_time prompt = true
  ∧ contains end_time prompt = true
  ∧ contains fmt prompt = true.
Proof.
  unfold build_prompt. cbv beta zeta. rewrite <- !app_assoc.
  repeat split;
    repeat first [ apply contains_prefix | apply contains_app_r ].
Qed.

(** X4.  The percent-encoded prompt of the request is made of
    unreserved characters, slashes and percent escapes only, and is at
    most 2640 characters long (220 code points of at most four bytes,
    three characters a byte), so the length of the URL is bounded
    whatever the model wrote. *)
Theorem encoded_prompt_is_a_bounded_path image_prompt enc seed key :
  quote (take 200 image_prompt ++ py ", cinematic lighting") = Return enc →
  Forall is_path_char enc
  ∧ (length enc ≤ 2640)%nat
  ∧ (length (pollinations_url enc seed key)
     = 92 + length enc + length (str_of_int seed) + length (api_key_param key))%nat.
Proof.
  unfold quote.
  destruct (utf8_encode _) as [bs|] eqn:Hq; [|done]. intros [= <-].
  destruct (utf8_encode_bytes _ _ Hq) as [Hb Hl].
  destruct (quote_bytes_path_chars bs Hb) as [Hc Hlen].
  split; [done|]. split.
  - rewrite length_app, length_take in Hl.
    change (length (py ", cinematic lighting")) with 20%nat in Hl. lia.
  - unfold pollinations_url. rewrite !length_app.
    change (length (py "https://image.pollinations.ai/prompt/")) with 37%nat.
    change (length (py ".png?width=1280&height=720&model=flux&nologo=true&seed="))
      with 55%nat.
    lia.
Qed.

Lemma encoded_prompt_is_a_bounded_path_witness :
  let enc := py "a%20stage%2C%20cinematic%20lighting" in
  quote (take 200 (py "a stage") ++ py ", cinematic lighting") = Return enc
  ∧ Forall is_path_char enc
  ∧ (length enc ≤ 2640)%nat.
Proof.
  intros enc.
  assert (H : quote (take 200 (py "a stage") ++ py ", cinematic lighting")
              = Return enc) by (vm_compute; reflexivity).
  split; [exact H|].
  destruct (encoded_prompt_is_a_bounded_path (py "a stage") enc 7 None H)
    as (H1 & H2 & _).
  split; [exact H1|exact H2].
Defined.



(** ** What a call leaves behind *)

(** X6.  Whatever the collaborators answer, a call keeps the requests
    and the files that were there, sends at most two requests and
    writes at most one file, and no file without a request; it draws
    at most one seed and one identifier.  Every request goes to
    [https://image.pollinations.ai/prompt/...] with the browser
    identity of the source and a timeout of 30 seconds. *)
Theorem call_effects_are_bounded W title category start_time end_time st :
  let st' := (generate_event_content W title category start_time end_time st).2 in
  ∃ reqs fs,
    sent st' = sent st ++ reqs
    ∧ files st' = files st ++ fs
    ∧ (length fs ≤ 1 ∧ length fs ≤ length reqs ≤ 2)%nat
    ∧ Forall to_image_backend reqs
    ∧ (draws st ≤ draws st' ≤ S (draws st))%nat
    ∧ (uuids st ≤ uuids st' ≤ S (uuids st))%nat.
Proof.
  cbv zeta.
  destruct (generate_outcome W title category start_time end_time st)
    as [(e & _ & (Hs & Hf & Hu) & Hd)
       |[(reqs & _ & _ & Hs & Hl & Hb & Hd & Hf & Hu)
        |(d & u & reqs & _ & _ & Hs & Hl & Hb & Hd & Hf)]].
  - exists [], []. rewrite Hs, Hf, Hu, !app_nil_r.
    split; [done|]. split; [done|]. split; [simpl; lia|].
    split; [done|]. split; lia.
  - exists reqs, []. rewrite Hf, app_nil_r.
    split; [done|]. split; [done|]. split; [simpl; lia|].
    split; [done|]. split; lia.
  - destruct Hf as [(_ & Hf & Hu)|(req & resp & Hlast & _ & _ & _ & Hu & Hf)].
    + exists reqs, []. rewrite Hf, app_nil_r.
      split; [done|]. split; [done|]. split; [simpl; lia|].
      split; [done|]. split; lia.
    + eexists reqs, [_]. split; [done|]. split; [exact Hf|].
      split; [|split; [done|split; lia]].
      destruct reqs; [done|]. simpl in *. lia.
Qed.

(** X7.  A call that raises has written no file.  It has sent no
    request and drawn no identifier either, unless what it raises is
    the [UnicodeEncodeError] of the handler of the download, whose
    [print] met an error it could not encode: then one request or two
    were sent before.  Every other failure happens before the download,
    and in a world whose errors can all be printed the failures of the
    download are absorbed. *)
Theorem failed_call_writes_no_file W title category start_time end_time st e st' :
  generate_event_content W title category start_time end_time st = (Raise e, st') →
  files st' = files st
  ∧ (e ≠ UnicodeEncodeError ∨ quiet W → untouched st st')
  ∧ (¬ untouched st st' →
     ∃ reqs, sent st' = sent st ++ reqs ∧ (1 ≤ length reqs ≤ 2)%nat
             ∧ Forall to_image_backend reqs).
Proof.
  intros H.
  destruct (generate_outcome W title category start_time end_time st)
    as [(e' & _ & Hu & _)
       |[(reqs & He & Hq & Hs & Hl & Hb & _ & Hf & _)
        |(d & u & reqs & _ & Hr & _)]];
    rewrite H in *; simpl in *; [| |done].
  - split; [apply Hu|]. split; [done|]. by intros [].
  - injection He as ->. split; [done|]. split; [|eauto].
    by intros [?|?].
Qed.

Lemma failed_call_writes_no_file_witness :
  let W := sample_world (Return (JDict sample_content)) None
             (λ n, match n with
                   | O => Return html_500
                   | _ => Raise garbled_transport_error
                   end) in
  let out := sample_call W in
  out = (Raise UnicodeEncodeError, out.2)
  ∧ sent out.2 = [request_for sample_flux_url; request_for sample_turbo_url]
  ∧ files out.2 = []
  ∧ ¬ untouched initial out.2.
Proof.
  intros W out.
  assert (H : out = (Raise UnicodeEncodeError, out.2))
    by (vm_compute; reflexivity).
  split; [exact H|]. split; [vm_compute; reflexivity|].
  split.
  - exact (proj1 (failed_call_writes_no_file W (py "Launch") (py "Tech")
                    (py "10:00") (py "12:00") initial _ _ H)).
  - intros [Hs _]. vm_compute in Hs. discriminate Hs.
Defined.

(** X8.  The result and the disk agree.  When a call returns, either
    [imageUrl] is empty and no file was written, or [imageUrl] is
    [http://localhost:8000/uploads/ai_gen_{id}.png] for the identifier
    drawn by the call, and the call wrote exactly one file,
    [{cwd}/uploads/ai_gen_{id}.png], holding the body of the response
    to the last request sent, which was an image with status 200. *)
Theorem image_url_names_the_stored_file W title category start_time end_time st r st' :
  generate_event_content W title category start_time end_time st = (Return r, st') →
  let id := uuid_uuid4 W (uuids st) in
  ∃ u, image_url_of r = Some u
    ∧ ((u = [] ∧ files st' = files st)
       ∨ (∃ req resp,
            last (sent st') = Some req
            ∧ requests_get W (length (sent st') - 1) req = Return resp
            ∧ is_image resp = true
            ∧ u = upload_url id
            ∧ files st' = files st ++ [(upload_path (os_getcwd W) id, content resp)])).
Proof.
  intros H id.
  destruct (generate_outcome W title category start_time end_time st)
    as [(e' & He & _)
       |[(? & He & _)|(d & u & reqs & _ & Hr & Hs & _ & _ & _ & Hf)]];
    rewrite H in *; simpl in *; [done|done|].
  injection Hr as ->. exists u. split; [apply image_url_of_with_image_url|].
  destruct Hf as [(-> & Hf & _)|(req & resp & H1 & H2 & H3 & H4 & _ & H6)].
  - by left.
  - right. exists req, resp. split; [|done].
    rewrite Hs. destruct reqs as [|a reqs] using rev_ind; [done|].
    rewrite app_assoc, last_snoc. by rewrite last_snoc in H1.
Qed.

Lemma image_url_names_the_stored_file_witness :
  let W := sample_world (Return (JDict sample_content)) None
             (λ n, match n with O => Return html_500 | _ => Return png_200 end) in
  let out := sample_call W in
  out = (Return (result_of out), out.2)
  ∧ ∃ u, image_url_of (result_of out) = Some u
      ∧ ((u = [] ∧ files out.2 = [])
         ∨ (∃ req resp,
              last (sent out.2) = Some req
              ∧ requests_get W (length (sent out.2) - 1) req = Return resp
              ∧ is_image resp = true
              ∧ u = upload_url (py "3f2c0")
              ∧ files out.2
                = [(upload_path (py "/srv/app") (py "3f2c0"), content resp)])).
Proof.
  intros W out.
  assert (H : out = (Return (result_of out), out.2)) by (vm_compute; reflexivity).
  split; [exact H|].
  exact (image_url_names_the_stored_file W (py "Launch") (py "Tech")
           (py "10:00") (py "12:00") initial _ _ H).
Defined.

(** X9.  Two calls never share a file.  If the identifier source never
    repeats itself, a call and any later call that both return an
    image have different [imageUrl]s and wrote different files,
    whatever their arguments. *)
Theorem successive_calls_get_different_files W
    title1 category1 start1 end1 title2 category2 start2 end2
    st1 st1' st2 st2' r1 r2 u1 u2 :
  Inj (=) (=) (uuid_uuid4 W) →
  generate_event_content W title1 category1 start1 end1 st1 = (Return r1, st1') →
  (uuids st1' ≤ uuids st2)%nat →
  generate_event_content W title2 category2 start2 end2 st2 = (Return r2, st2') →
  image_url_of r1 = Some u1 → u1 ≠ [] →
  image_url_of r2 = Some u2 → u2 ≠ [] →
  u1 ≠ u2
  ∧ ∃ path1 body1 path2 body2,
      files st1' = files st1 ++ [(path1, body1)]
      ∧ files st2' = files st2 ++ [(path2, body2)]
      ∧ path1 ≠ path2.
Proof.
  intros Hinj H1 Hle H2 Hu1 Hn1 Hu2 Hn2.
  destruct (generate_outcome W title1 category1 start1 end1 st1)
    as [(? & He & _)
       |[(? & He & _)|(d1 & v1 & reqs1 & _ & Hr1 & _ & _ & _ & _ & Hf1)]];
    rewrite H1 in *; simpl in *; [done|done|].
  destruct (generate_outcome W title2 category2 start2 end2 st2)
    as [(? & He & _)
       |[(? & He & _)|(d2 & v2 & reqs2 & _ & Hr2 & _ & _ & _ & _ & Hf2)]];
    rewrite H2 in *; simpl in *; [done|done|].
  injection Hr1 as ->. injection Hr2 as ->.
  rewrite image_url_of_with_image_url in Hu1, Hu2.
  injection Hu1 as ->. injection Hu2 as ->.
  destruct Hf1 as [(-> & _)|(_ & resp1 & _ & _ & _ & -> & Hid1 & Hf1)]; [done|].
  destruct Hf2 as [(-> & _)|(_ & resp2 & _ & _ & _ & -> & Hid2 & Hf2)]; [done|].
  assert (Hne : uuid_uuid4 W (uuids st1) ≠ uuid_uuid4 W (uuids st2)).
  { intros E. apply Hinj in E. lia. }
  split.
  - intros E. by apply upload_url_inj in E.
  - eexists _, _, _, _. split; [exact Hf1|]. split; [exact Hf2|].
    intros E. by apply upload_path_inj in E.
Qed.

Lemma successive_calls_get_different_files_witness :
  let W := counting_world (Return (JDict sample_content)) (λ _, Return png_200) in
  let out1 := sample_call W in
  let out2 := generate_event_content W (py "Launch") (py "Tech") (py "10:00")
                (py "12:00") out1.2 in
  Inj (=) (=) (uuid_uuid4 W)
  ∧ image_url_of (result_of out1)
    = Some (py "http://localhost:8000/uploads/ai_gen_3f2c-a.png")
  ∧ image_url_of (result_of out2)
    = Some (py "http://localhost:8000/uploads/ai_gen_3f2c-b.png")
  ∧ py "http://localhost:8000/uploads/ai_gen_3f2c-a.png"
    ≠ py "http://localhost:8000/uploads/ai_gen_3f2c-b.png".
Proof.
  intros W out1 out2.
  assert (Hinj : Inj (=) (=) (uuid_uuid4 W)).
  { intros i j E. simpl in E. injection E as E. lia. }
  assert (H1 : out1 = (Return (result_of out1), out1.2))
    by (vm_compute; reflexivity).
  assert (H2 : out2 = (Return (result_of out2), out2.2))
    by (vm_compute; reflexivity).
  assert (Hu1 : image_url_of (result_of out1)
                = Some (py "http://localhost:8000/uploads/ai_gen_3f2c-a.png"))
    by (vm_compute; reflexivity).
  assert (Hu2 : image_url_of (result_of out2)
                = Some (py "http://localhost:8000/uploads/ai_gen_3f2c-b.png"))
    by (vm_compute; reflexivity).
  split; [exact Hinj|]. split; [exact Hu1|]. split; [exact Hu2|].
  refine (proj1 (successive_calls_get_different_files W
                   (py "Launch") (py "Tech") (py "10:00") (py "12:00")
                   (py "Launch") (py "Tech") (py "10:00") (py "12:00")
                   initial out1.2 out1.2 out2.2 _ _ _ _
                   Hinj H1 _ H2 Hu1 _ Hu2 _)).
  - apply le_n.
  - discriminate.
  - discriminate.
Defined.

(** X10.  A parsed dictionary without [image_prompt] costs nothing: the
    call returns the cleaned dictionary with an empty [imageUrl] and
    the world is exactly as it was, with no seed drawn and no request
    sent. *)
Theorem no_image_prompt_no_request W title category start_time end_time st d :
  chain_ainvoke W
    (build_prompt (get_format_instructions W) title category start_time end_time)
  = Return (JDict d) →
  description_ok d = true →
  d !! py "image_prompt" = None →
  generate_event_content W title category start_time end_time st
  = (Return (with_image_url (cleaned d) []), st).
Proof.
  intros Hc Hd Hp. rewrite (generate_dict _ _ _ _ _ d st Hc).
  unfold description_ok in Hd.
  destruct (d !! py "description") as [[]|]; try done.
  all: apply image_step_no_prompt; by rewrite cleaned_lookup_ne.
Qed.

Lemma no_image_prompt_no_request_witness :
  let W := sample_world (Return (JDict sample_partial)) (Some (py "sk-42"))
             (λ _, Return png_200) in
  sample_call W
  = (Return (with_image_url (cleaned sample_partial) []), initial).
Proof.
  intros W.
  apply (no_image_prompt_no_request W); vm_compute; reflexivity.
Defined.

(** ** The download *)







(** ** The values the call rejects *)

(** X14.  What the call raises on a value of the text chain it cannot
    use.  A value that is not a dictionary and a [description] that is
    not a string raise [TypeError]; a prompt whose first 200
    characters hold a lone surrogate raises [UnicodeEncodeError], after
    the seed was drawn.  None of them is absorbed into an empty
    [imageUrl]. *)
Theorem rejected_values_raise W title category start_time end_time st v :
  chain_ainvoke W
    (build_prompt (get_format_instructions W) title category start_time end_time)
  = Return v →
  let out := generate_event_content W title category start_time end_time st in
  ((∀ d, v ≠ JDict d) → out.1 = Raise TypeError)
  ∧ (∀ d x, v = JDict d → d !! py "description" = Some x → as_str x = None →
       out = (Raise TypeError, st))
  ∧ (∀ d p, v = JDict d → description_ok d = true →
       d !! py "image_prompt" = Some (JStr p) →
       ¬ Forall is_scalar (take 200 p) →
       out = (Raise UnicodeEncodeError, after_draw st)).
Proof.
  intros Hc out. unfold out. split; [|split].
  - intros Hv. exact (generate_nondict _ _ _ _ _ v st Hc Hv).
  - intros d x -> Hx Hs. rewrite (generate_dict _ _ _ _ _ d st Hc), Hx.
    by destruct x.
  - intros d p -> Hd Hp Hs. rewrite (generate_dict _ _ _ _ _ d st Hc).
    assert (Hq : utf8_encode (spec_styled_prompt p) = None).
    { destruct (utf8_encode (spec_styled_prompt p)) as [bs|] eqn:Hq; [|done].
      exfalso. apply Hs. unfold spec_styled_prompt in Hq.
      apply utf8_encode_Some_scalar in Hq. by apply Forall_app in Hq as [? _]. }
    unfold description_ok in Hd.
    destruct (d !! py "description") as [[]|]; try done.
    all: apply (image_step_unencodable W _ p);
      [by rewrite cleaned_lookup_ne|done].
Qed.

Lemma rejected_values_raise_witness :
  let W := sample_world (Return (JList [JStr (py "image_prompt")])) None
             (λ _, Return png_200) in
  chain_ainvoke W
    (build_prompt (get_format_instructions W)
       (py "Launch") (py "Tech") (py "10:00") (py "12:00"))
  = Return (JList [JStr (py "image_prompt")])
  ∧ (sample_call W).1 = Raise TypeError.
Proof.
  intros W. split; [reflexivity|].
  apply (proj1 (rejected_values_raise W (py "Launch") (py "Tech") (py "10:00")
                  (py "12:00") initial _ eq_refl)).
  intros d. discriminate.
Defined.

(** * The ticket service *)

(** ** What a ticket shows *)

(** X15.  Both renderings of the event date tell the dates apart to
    the minute: the line printed on the ticket
    ([%B %d, %Y @ %I:%M %p], a twelve-hour clock with its meridiem)
    and the line of the QR text ([%Y-%m-%d %H:%M %p]).  Two valid
    dates with the same rendering agree in year, month, day, hour and
    minute. *)
Theorem ticket_dates_are_unambiguous d1 d2 :
  valid_datetime d1 → valid_datetime d2 →
  strftime d1 date_line_format = strftime d2 date_line_format
  ∨ strftime d1 valid_line_format = strftime d2 valid_line_format →
  same_minute d1 d2.
Proof.
  intros H1 H2 [H|H]; [by apply date_line_inj|by apply valid_line_inj].
Qed.

Lemma ticket_dates_are_unambiguous_witness :
  let d := {| year := 2025; month := 3; day := 4; hour := 2; minute := 5 |} in
  strftime sample_date date_line_format = py "March 04, 2025 @ 02:05 PM"
  ∧ strftime d date_line_format = py "March 04, 2025 @ 02:05 AM"
  ∧ strftime sample_date valid_line_format = py "2025-03-04 14:05 PM"
  ∧ same_minute sample_date sample_date.
Proof.
  intros d.
  split; [vm_compute; reflexivity|]. split; [vm_compute; reflexivity|].
  split; [vm_compute; reflexivity|].
  apply (ticket_dates_are_unambiguous sample_date sample_date).
  - unfold valid_datetime. simpl. lia.
  - unfold valid_datetime. simpl. lia.
  - left. reflexivity.
Defined.

(** X16.  The text in the QR code identifies the ticket: when the
    registration ids, the titles and the e-mail addresses hold no line
    break, two tickets with the same QR text have the same id, title
    and e-mail address, and the same date to the minute. *)
Theorem qr_text_identifies_the_ticket id1 title1 email1 d1 id2 title2 email2 d2 :
  Forall (λ c, c ≠ chr_nl) id1 → Forall (λ c, c ≠ chr_nl) id2 →
  Forall (λ c, c ≠ chr_nl) title1 → Forall (λ c, c ≠ chr_nl) title2 →
  Forall (λ c, c ≠ chr_nl) email1 → Forall (λ c, c ≠ chr_nl) email2 →
  valid_datetime d1 → valid_datetime d2 →
  qr_text id1 title1 email1 d1 = qr_text id2 title2 email2 d2 →
  id1 = id2 ∧ title1 = title2 ∧ email1 = email2 ∧ same_minute d1 d2.
Proof.
  intros Hi1 Hi2 Ht1 Ht2 He1 He2 Hd1 Hd2. unfold qr_text. intros H.
  apply app_inv_head in H.
  apply (split_at_separator (λ c, c ≠ chr_nl)) in H as [-> H];
    [|done|done|by intros ?].
  apply app_inv_head in H.
  apply (split_at_separator (λ c, c ≠ chr_nl)) in H as [-> H];
    [|done|done|by intros ?].
  apply app_inv_head in H.
  apply (split_at_separator (λ c, c ≠ chr_nl)) in H as [-> H];
    [|done|done|by intros ?].
  apply app_inv_head in H.
  split; [done|]. split; [done|]. split; [done|]. by apply valid_line_inj.
Qed.

Lemma qr_text_identifies_the_ticket_witness :
  qr_text (py "42") (py "Launch day") (py "ada@example.org") sample_date
  = py "Ticket ID: 42
Event: Launch day
User: ada@example.org
Valid: 2025-03-04 14:05 PM"
  ∧ same_minute sample_date sample_date.
Proof.
  split; [vm_compute; reflexivity|].
  refine (proj2 (proj2 (proj2
    (qr_text_identifies_the_ticket (py "42") (py "Launch day")
       (py "ada@example.org") sample_date (py "42") (py "Launch day")
       (py "ada@example.org") sample_date _ _ _ _ _ _ _ _ eq_refl)))).
  all: try (unfold valid_datetime; simpl; lia).
  all: unfold py; simpl; repeat constructor; done.
Defined.

(** ** What a call leaves on the disk *)



(** X18.  A call that returns has written two files, in this order:
    the QR image [tickets/qr_{id}.png] of the QR text, and the PDF at
    the returned path, on letter paper.  The page places that very
    image and no other, and shows the first 40 characters of the
    title, the attendee, the date, the location and the ticket id in
    full.  The directory [tickets] exists afterwards. *)
Theorem ticket_pdf_embeds_its_qr_code E registration_id event_title user_name
    user_email event_date event_location st p :
  let out := generate_ticket_pdf E registration_id event_title user_name
               user_email event_date event_location st in
  out.1 = Return p →
  p = abspath (getcwd E)
        (path_join TICKET_DIR (py "ticket_" ++ registration_id ++ py ".pdf"))
  ∧ TICKET_DIR ∈ paths out.2
  ∧ ∃ page,
      written out.2
      = written st
        ++ [(qr_path_of registration_id,
             qr_image registration_id event_title user_email event_date);
            (p, PdfFile letter page)]
      ∧ images page = [qr_path_of registration_id]
      ∧ texts page
        = [take 40 event_title; py "Powered by Infinite BZ"; py "ADMIT ONE";
           py "Attendee: " ++ user_name;
           py "Date: " ++ strftime event_date date_line_format;
           py "Location: " ++ event_location;
           py "Ticket ID: " ++ registration_id;
           py "Please show this ticket at the entrance. valid for one entry."].
Proof.
  intros out Hout. unfold out in *. clear out.
  destruct (generate_ticket_pdf_outcome E registration_id event_title user_name
              user_email event_date event_location st)
    as [[(e & He & _)|(page & Hp & Hw & Ht & Hi & Hd & _)] _];
    rewrite Hout in *; [done|].
  injection Hp as ->. split; [done|]. split; [done|]. by exists page.
Qed.

Lemma ticket_pdf_embeds_its_qr_code_witness :
  let out := sample_ticket sample_env empty_disk in
  out.1 = Return (py "/srv/app/tickets/ticket_42.pdf")
  ∧ ∃ page,
      written out.2
      = [(py "tickets/qr_42.png",
          qr_image (py "42") (py "Launch day") (py "ada@example.org") sample_date);
         (py "/srv/app/tickets/ticket_42.pdf", PdfFile letter page)]
      ∧ images page = [py "tickets/qr_42.png"].
Proof.
  intros out.
  assert (H : out.1 = Return (py "/srv/app/tickets/ticket_42.pdf"))
    by (vm_compute; reflexivity).
  split; [exact H|].
  destruct (ticket_pdf_embeds_its_qr_code sample_env (py "42") (py "Launch day")
              (py "Ada Lovelace") (py "ada@example.org") sample_date
              (py "Main hall") empty_disk _ H)
    as (_ & _ & page & Hw & Hi & _).
  exists page. split; [exact Hw|exact Hi].
Defined.

(** X19.  A call that raises leaves no PDF: it has written nothing, or
    the QR image alone, which stays on the disk (nothing removes it). *)
Theorem failed_ticket_leaves_no_pdf E registration_id event_title user_name
    user_email event_date event_location st e :
  let out := generate_ticket_pdf E registration_id event_title user_name
               user_email event_date event_location st in
  out.1 = Raise e →
  ∃ new, written out.2 = written st ++ new
    ∧ (new = []
       ∨ new = [(qr_path_of registration_id,
                 qr_image registration_id event_title user_email event_date)])
    ∧ Forall (λ f, is_pdf f.2 = false) new.
Proof.
  intros out Hout. unfold out in *. clear out.
  destruct (generate_ticket_pdf_outcome E registration_id event_title user_name
              user_email event_date event_location st)
    as [[(e' & _ & [Hw|Hw])|(page & Hp & _)] _];
    rewrite ?Hout in *; [| |done].
  - exists []. rewrite app_nil_r. split; [done|]. split; [by left|constructor].
  - eexists. split; [exact Hw|]. split; [by right|]. by repeat constructor.
Qed.

Lemma failed_ticket_leaves_no_pdf_witness :
  let out := sample_ticket unreadable_image_env empty_disk in
  out.1 = Raise (OtherError (py "OSError") (py "cannot open resource"))
  ∧ ∃ new, written out.2 = new
      ∧ (new = []
         ∨ new = [(py "tickets/qr_42.png",
                   qr_image (py "42") (py "Launch day") (py "ada@example.org")
                     sample_date)])
      ∧ Forall (λ f, is_pdf f.2 = false) new.
Proof.
  intros out.
  assert (H : out.1 = Raise (OtherError (py "OSError") (py "cannot open resource")))
    by (vm_compute; reflexivity).
  split; [exact H|].
  exact (failed_ticket_leaves_no_pdf unreadable_image_env (py "42")
           (py "Launch day") (py "Ada Lovelace") (py "ada@example.org")
           sample_date (py "Main hall") empty_disk _ H).
Defined.

(** X20.  The directory [tickets] is created when it is missing and
    only then: a call that returns has created it exactly when it was
    missing, and no later call creates it again, whatever its
    arguments and whether it succeeds or not. *)
Theorem tickets_directory_is_made_once E E'
    id1 title1 name1 email1 date1 location1
    id2 title2 name2 email2 date2 location2 st p :
  let out1 := generate_ticket_pdf E id1 title1 name1 email1 date1 location1 st in
  let out2 := generate_ticket_pdf E' id2 title2 name2 email2 date2 location2 out1.2 in
  out1.1 = Return p →
  (TICKET_DIR ∈ paths st → made out1.2 = made st)
  ∧ ((TICKET_DIR ∉ paths st) → made out1.2 = made st ++ [TICKET_DIR])
  ∧ made out2.2 = made out1.2.
Proof.
  intros out1 out2 Hout. unfold out2. clear out2.
  generalize (generate_ticket_pdf_outcome E' id2 title2 name2 email2 date2
                location2 out1.2).
  generalize (generate_ticket_pdf E' id2 title2 name2 email2 date2 location2
                out1.2).
  unfold out1 in *. clear out1. intros out2 [_ Hm2].
  destruct (generate_ticket_pdf_outcome E id1 title1 name1 email1 date1
              location1 st)
    as [[(e & He & _)|(page & _ & _ & _ & _ & Hd & Hmk)] Hm];
    rewrite ?Hout in *; [done|].
  split; [|split; [done|]].
  - intros Hin. by destruct Hm as [Hm|[Hn _]].
  - by destruct Hm2 as [Hm2|[Hn _]].
Qed.

Lemma tickets_directory_is_made_once_witness :
  let out1 := sample_ticket sample_env empty_disk in
  let out2 := sample_ticket unreadable_image_env out1.2 in
  out1.1 = Return (py "/srv/app/tickets/ticket_42.pdf")
  ∧ made out1.2 = [TICKET_DIR]
  ∧ made out2.2 = made out1.2.
Proof.
  intros out1 out2.
  assert (H : out1.1 = Return (py "/srv/app/tickets/ticket_42.pdf"))
    by (vm_compute; reflexivity).
  split; [exact H|].
  destruct (tickets_directory_is_made_once sample_env unreadable_image_env
              (py "42") (py "Launch day") (py "Ada Lovelace")
              (py "ada@example.org") sample_date (py "Main hall")
              (py "42") (py "Launch day") (py "Ada Lovelace")
              (py "ada@example.org") sample_date (py "Main hall")
              empty_disk _ H) as (_ & H1 & H2).
  split; [|exact H2]. apply H1. vm_compute. intros Hin. discriminate Hin.
Defined.

(** X21.  Where the PDF goes.  When the working directory is an
    absolute path in normal form and the registration id holds no
    slash, the path returned is [{cwd}/tickets/ticket_{id}.pdf]; such
    paths, and the paths of the QR images, differ for different
    ids. *)
Theorem ticket_path_is_under_tickets E registration_id event_title user_name
    user_email event_date event_location st p :
  is_prefix (py "/") (getcwd E) = true →
  normpath (getcwd E) = getcwd E →
  Forall (λ c, c ≠ 47) registration_id →
  (generate_ticket_pdf E registration_id event_title user_name user_email
     event_date event_location st).1 = Return p →
  p = ticket_path_of (getcwd E) registration_id
  ∧ (∀ id', ticket_path_of (getcwd E) id' = p → id' = registration_id)
  ∧ (∀ id', qr_path_of id' = qr_path_of registration_id → id' = registration_id).
Proof.
  intros Habs Hn Hs Hout.
  rewrite (generate_ticket_pdf_returns E registration_id event_title
             user_name user_email event_date event_location st p Hout).
  rewrite abspath_ticket by done.
  split; [done|]. split.
  - intros id' H. exact (ticket_path_of_inj _ _ _ H).
  - intros id' H. unfold qr_path_of in H.
    apply app_inv_head in H. by apply app_inv_tail in H.
Qed.

Lemma ticket_path_is_under_tickets_witness :
  is_prefix (py "/") (getcwd sample_env) = true
  ∧ normpath (getcwd sample_env) = getcwd sample_env
  ∧ (sample_ticket sample_env empty_disk).1
    = Return (py "/srv/app/tickets/ticket_42.pdf")
  ∧ py "/srv/app/tickets/ticket_42.pdf" = ticket_path_of (py "/srv/app") (py "42").
Proof.
  assert (H1 : is_prefix (py "/") (getcwd sample_env) = true) by reflexivity.
  assert (H2 : normpath (getcwd sample_env) = getcwd sample_env)
    by (vm_compute; reflexivity).
  assert (H3 : (sample_ticket sample_env empty_disk).1
               = Return (py "/srv/app/tickets/ticket_42.pdf"))
    by (vm_compute; reflexivity).
  split; [exact H1|]. split; [exact H2|]. split; [exact H3|].
  refine (proj1 (ticket_path_is_under_tickets sample_env (py "42")
                   (py "Launch day") (py "Ada Lovelace") (py "ada@example.org")
                   sample_date (py "Main hall") empty_disk _ H1 H2 _ H3)).
  unfold py; simpl; repeat constructor; done.
Defined.
